(** * VideoWorker: the stream worker of the RTSP viewer (src/main.py)

    A shallow embedding of [class VideoWorker]: the worker object is a record
    of its fields, every method is a function that threads the record and
    returns the list of signals it emitted and library calls it made, in
    program order.  Whatever PyAV, Qt or the file system decides (whether a
    call raises, which packets the encoder hands back, whether the image is
    written) is part of the input, so the functions below are total and can
    be evaluated on any scenario. *)

From Stdlib Require Import List String ZArith QArith Bool Lia Sorted.
Import ListNotations.
Open Scope string_scope.
Open Scope list_scope.
Open Scope Z_scope.

(** ** Data *)

(** A decoded frame as [container.decode] yields it.  [f_id] is the position
    of the frame in the source, used only to tell frames apart. *)
Record Frame := mkFrame {
  f_id : nat;
  f_pts : option Z;
  f_width : Z;
  f_height : Z
}.

(** The [QImage] copy made of a frame ([qimg.copy()]). *)
Record QImage := mkQImage {
  qi_frame : nat;
  qi_w : Z;
  qi_h : Z
}.

(** An input stream of the opened container. *)
Record Stream := mkStream {
  st_type : string;
  st_average_rate : option Q;
  st_width : Z;
  st_height : Z
}.

(** Encoded packets are opaque; a number tells them apart. *)
Definition Packet := nat.

(** The output container: the path it was opened at and the packets muxed
    into it so far. *)
Record Container := mkContainer {
  oc_path : string;
  oc_muxed : list Packet
}.

(** The encoder stream added to the output container, with the attributes
    the worker assigns after [add_stream]. *)
Record OutStream := mkOutStream {
  os_codec : string;
  os_rate : Q;
  os_width : option Z;
  os_height : option Z;
  os_pix_fmt : option string;
  os_bit_rate : option Z
}.

(** [self._thread]: [None], or a thread object with its [is_alive()]. *)
Record Thread := mkThread { th_alive : bool }.

Record Worker := mkWorker {
  thread : option Thread;
  stop_flag : bool;                      (* self._stop *)
  last_qimage : option QImage;
  recording : bool;
  output_container : option Container;
  output_stream : option OutStream;
  recording_path : option string;
  frame_count : Z;
  recording_start_pts : option Z
}.

(** [__init__] *)
Definition init : Worker :=
  {| thread := None; stop_flag := false; last_qimage := None;
     recording := false; output_container := None; output_stream := None;
     recording_path := None; frame_count := 0; recording_start_pts := None |}.

Definition set_thread (t : option Thread) (w : Worker) : Worker :=
  {| thread := t; stop_flag := stop_flag w; last_qimage := last_qimage w;
     recording := recording w; output_container := output_container w;
     output_stream := output_stream w; recording_path := recording_path w;
     frame_count := frame_count w;
     recording_start_pts := recording_start_pts w |}.

Definition set_stop_flag (b : bool) (w : Worker) : Worker :=
  {| thread := thread w; stop_flag := b; last_qimage := last_qimage w;
     recording := recording w; output_container := output_container w;
     output_stream := output_stream w; recording_path := recording_path w;
     frame_count := frame_count w;
     recording_start_pts := recording_start_pts w |}.

Definition set_last_qimage (q : option QImage) (w : Worker) : Worker :=
  {| thread := thread w; stop_flag := stop_flag w; last_qimage := q;
     recording := recording w; output_container := output_container w;
     output_stream := output_stream w; recording_path := recording_path w;
     frame_count := frame_count w;
     recording_start_pts := recording_start_pts w |}.

Definition set_recording (b : bool) (w : Worker) : Worker :=
  {| thread := thread w; stop_flag := stop_flag w;
     last_qimage := last_qimage w;
     recording := b; output_container := output_container w;
     output_stream := output_stream w; recording_path := recording_path w;
     frame_count := frame_count w;
     recording_start_pts := recording_start_pts w |}.

Definition set_output_container (c : option Container) (w : Worker) : Worker :=
  {| thread := thread w; stop_flag := stop_flag w;
     last_qimage := last_qimage w;
     recording := recording w; output_container := c;
     output_stream := output_stream w; recording_path := recording_path w;
     frame_count := frame_count w;
     recording_start_pts := recording_start_pts w |}.

Definition set_output_stream (s : option OutStream) (w : Worker) : Worker :=
  {| thread := thread w; stop_flag := stop_flag w;
     last_qimage := last_qimage w;
     recording := recording w; output_container := output_container w;
     output_stream := s; recording_path := recording_path w;
     frame_count := frame_count w;
     recording_start_pts := recording_start_pts w |}.

Definition set_recording_path (p : option string) (w : Worker) : Worker :=
  {| thread := thread w; stop_flag := stop_flag w;
     last_qimage := last_qimage w;
     recording := recording w; output_container := output_container w;
     output_stream := output_stream w; recording_path := p;
     frame_count := frame_count w;
     recording_start_pts := recording_start_pts w |}.

Definition set_frame_count (n : Z) (w : Worker) : Worker :=
  {| thread := thread w; stop_flag := stop_flag w;
     last_qimage := last_qimage w;
     recording := recording w; output_container := output_container w;
     output_stream := output_stream w; recording_path := recording_path w;
     frame_count := n;
     recording_start_pts := recording_start_pts w |}.

Definition set_recording_start_pts (p : option Z) (w : Worker) : Worker :=
  {| thread := thread w; stop_flag := stop_flag w;
     last_qimage := last_qimage w;
     recording := recording w; output_container := output_container w;
     output_stream := output_stream w; recording_path := recording_path w;
     frame_count := frame_count w;
     recording_start_pts := p |}.

(** The options dictionary of [_run]. *)
Record Options := mkOptions {
  rtsp_transport : string;
  stimeout : Z;
  max_delay : Z
}.

(** ** Effects

    Signals ([status], [frame_ready], [stopped], [recording_status]) and the
    calls into PyAV, Qt and [time] that act on the outside world. *)
Inductive Event :=
| EvStatus (s : string)
| EvFrameReady (img : QImage)
| EvStopped
| EvRecordingStatus (b : bool)
| EvOpenSource (url : string) (opts : Options)   (* av.open(url, ...) *)
| EvOpenOutput (path : string)                   (* av.open(path, 'w') *)
| EvOffer (fid : nat)        (* VideoFrame.from_ndarray(frame.to_ndarray()) *)
| EvEncode (fid : nat) (pts : Z)                 (* stream.encode(new_frame) *)
| EvFlush                                        (* stream.encode() *)
| EvMux (p : Packet)                             (* container.mux(packet) *)
| EvClose (c : Container)                        (* container.close() *)
| EvSaveImage (img : QImage) (path : string)     (* QImage.save(path) *)
| EvSleep (seconds : Q)                          (* time.sleep(seconds) *)
| EvJoin (timeout : Q).                          (* thread.join(timeout) *)

Definition Trace := list Event.

(** ** Controller-side methods *)

(** [stop]: only a live thread is signalled and joined; the handle is
    dropped in every case. *)
Definition thread_running (w : Worker) : bool :=
  match thread w with
  | Some t => th_alive t
  | None => false
  end.

Definition stop (w : Worker) : Worker * Trace :=
  if thread_running w
  then (set_thread None (set_stop_flag true w), [EvJoin 2%Q])
  else (set_thread None w, []).

(** [start]: stop a previous run, clear the signal, spawn the thread.  The
    body of the thread is [run] below. *)
Definition start (w : Worker) : Worker * Trace :=
  let (w1, tr) := stop w in
  (set_thread (Some (mkThread true)) (set_stop_flag false w1), tr).

(** [save_snapshot]; [saved] is what [QImage.save] answers. *)
Definition save_snapshot (w : Worker) (path : string) (saved : bool)
  : Worker * bool * Trace :=
  match last_qimage w with
  | None => (w, false, [])
  | Some img => (w, saved, [EvSaveImage img path])
  end.

Definition start_recording (w : Worker) (path : string)
  : Worker * bool * Trace :=
  if recording w then (w, false, [])
  else (set_recording true (set_recording_path (Some path) w),
        true, [EvRecordingStatus true]).

Definition stop_recording (w : Worker) : Worker * Trace :=
  if negb (recording w) then (w, [])
  else
    let w1 := set_recording false w in
    match output_container w1 with
    | Some c =>
        (set_output_stream None (set_output_container None w1),
         [EvClose c; EvRecordingStatus false])
    | None => (w1, [EvRecordingStatus false])
    end.


(** ** The worker thread

    What the outside world answers is given per blocking call. *)

(** An exception caught by [_run]: [AvError], or any other [Exception];
    the string is what the f-string prints for it. *)
Inductive Exn :=
| AvError (msg : string)
| OtherError (msg : string).

(** Calls of the controller thread that take effect while the worker is
    blocked (opening, waiting for the next frame, sleeping): the two
    recording methods, and the [self._stop.set()] of [stop]. *)
Inductive Command :=
| CmdStartRecording (path : string)
| CmdStopRecording
| CmdSetStop.

Definition apply_command (w : Worker) (c : Command) : Worker * Trace :=
  match c with
  | CmdStartRecording path =>
      let '(w1, _, tr) := start_recording w path in (w1, tr)
  | CmdStopRecording => stop_recording w
  | CmdSetStop => (set_stop_flag true w, [])
  end.

Fixpoint apply_commands (w : Worker) (cs : list Command) : Worker * Trace :=
  match cs with
  | [] => (w, [])
  | c :: rest =>
      let (w1, e1) := apply_command w c in
      let (w2, e2) := apply_commands w1 rest in
      (w2, e1 ++ e2)
  end.

(** *** Materializing the output on the first frame *)

Inductive StreamAttr := AttrWidth | AttrHeight | AttrPixFmt | AttrBitRate.

(** Where the initialisation block raises, if it does. *)
Inductive MatOutcome :=
| MatOk
| MatOpenRaises (e : string)                    (* av.open(path, 'w') *)
| MatAddStreamRaises (e : string)               (* add_stream('h264') *)
| MatSetRaises (a : StreamAttr) (e : string).   (* one of the assignments *)

(** [stream.average_rate or 30]: [None] and a zero rate are both falsy. *)
Definition rate_or_30 (r : option Q) : Q :=
  match r with
  | Some q => if Qeq_bool q 0 then 30%Q else q
  | None => 30%Q
  end.

Definition added_stream (s : Stream) : OutStream :=
  mkOutStream "h264" (rate_or_30 (st_average_rate s)) None None None None.

Definition assign (a : StreamAttr) (s : Stream) (o : OutStream) : OutStream :=
  match a with
  | AttrWidth =>
      mkOutStream (os_codec o) (os_rate o) (Some (st_width s)) (os_height o)
                  (os_pix_fmt o) (os_bit_rate o)
  | AttrHeight =>
      mkOutStream (os_codec o) (os_rate o) (os_width o) (Some (st_height s))
                  (os_pix_fmt o) (os_bit_rate o)
  | AttrPixFmt =>
      mkOutStream (os_codec o) (os_rate o) (os_width o) (os_height o)
                  (Some "yuv420p") (os_bit_rate o)
  | AttrBitRate =>
      mkOutStream (os_codec o) (os_rate o) (os_width o) (os_height o)
                  (os_pix_fmt o) (Some 2000000)
  end.

Definition attr_eqb (a b : StreamAttr) : bool :=
  match a, b with
  | AttrWidth, AttrWidth | AttrHeight, AttrHeight
  | AttrPixFmt, AttrPixFmt | AttrBitRate, AttrBitRate => true
  | _, _ => false
  end.

(** The assignments in program order, up to the one that raises. *)
Fixpoint assign_until (failing : option StreamAttr) (attrs : list StreamAttr)
                      (s : Stream) (o : OutStream) : OutStream :=
  match attrs with
  | [] => o
  | a :: rest =>
      match failing with
      | Some b => if attr_eqb a b then o
                  else assign_until failing rest s (assign a s o)
      | None => assign_until failing rest s (assign a s o)
      end
  end.

Definition attrs_in_order : list StreamAttr :=
  [AttrWidth; AttrHeight; AttrPixFmt; AttrBitRate].

(** The [except] branch of the initialisation block. *)
Definition init_failed (e : string) (w : Worker) : Worker * Trace :=
  (set_recording false w,
   [EvStatus ("Recording init failed: " ++ e)%string;
    EvRecordingStatus false]).

Definition materialize (w : Worker) (path : string) (s : Stream) (f : Frame)
                       (o : MatOutcome) : Worker * Trace :=
  let opened := set_output_container (Some (mkContainer path [])) w in
  match o with
  | MatOpenRaises e =>
      let (w1, tr) := init_failed e w in (w1, EvOpenOutput path :: tr)
  | MatAddStreamRaises e =>
      let (w1, tr) := init_failed e opened in (w1, EvOpenOutput path :: tr)
  | MatSetRaises a e =>
      let st := assign_until (Some a) attrs_in_order s (added_stream s) in
      let (w1, tr) := init_failed e (set_output_stream (Some st) opened) in
      (w1, EvOpenOutput path :: tr)
  | MatOk =>
      let st := assign_until None attrs_in_order s (added_stream s) in
      (set_frame_count 0
         (set_recording_start_pts (f_pts f)
            (set_output_stream (Some st) opened)),
       [EvOpenOutput path])
  end.

(** *** Writing one frame *)

(** Where the write block raises, if it does, and which packets the encoder
    handed back.  [WMuxRaises done e]: [mux] raised after [done] went in. *)
Inductive WriteOutcome :=
| WOk (pkts : list Packet)
| WConvRaises (e : string)
| WEncodeRaises (e : string)
| WMuxRaises (done : list Packet) (e : string).

Definition mux_all (pkts : list Packet) (w : Worker) : Worker :=
  match output_container w with
  | Some c =>
      set_output_container
        (Some (mkContainer (oc_path c) (oc_muxed c ++ pkts))) w
  | None => w
  end.

(** [new_frame.pts] *)
Definition rebased_pts (w : Worker) (f : Frame) : Z :=
  match f_pts f, recording_start_pts w with
  | Some p, Some p0 => p - p0
  | _, _ => frame_count w
  end.

Definition recording_error (e : string) : Event :=
  EvStatus ("Recording error: " ++ e)%string.

Definition write (w : Worker) (f : Frame) (o : WriteOutcome)
  : Worker * Trace :=
  match o with
  | WConvRaises e => (w, [EvOffer (f_id f); recording_error e])
  | WEncodeRaises e =>
      (set_frame_count (frame_count w + 1) w,
       [EvOffer (f_id f); EvEncode (f_id f) (rebased_pts w f);
        recording_error e])
  | WMuxRaises done e =>
      (mux_all done (set_frame_count (frame_count w + 1) w),
       [EvOffer (f_id f); EvEncode (f_id f) (rebased_pts w f)]
         ++ map EvMux done ++ [recording_error e])
  | WOk pkts =>
      (mux_all pkts (set_frame_count (frame_count w + 1) w),
       [EvOffer (f_id f); EvEncode (f_id f) (rebased_pts w f)]
         ++ map EvMux pkts)
  end.

Definition is_some {A} (o : option A) : bool :=
  match o with Some _ => true | None => false end.

(** Truthiness of [self._recording_path]. *)
Definition path_given (w : Worker) : option string :=
  match recording_path w with
  | Some p => if String.eqb p "" then None else Some p
  | None => None
  end.

(** [self._recording and self._output_container and self._output_stream] *)
Definition session_active (w : Worker) : bool :=
  recording w && is_some (output_container w) && is_some (output_stream w).

(** One decoded frame with everything the outside world decides while the
    worker handles it. *)
Record FrameStep := mkStep {
  fs_cmds : list Command;     (* controller calls while decode blocked *)
  fs_frame : Frame;
  fs_mat : MatOutcome;        (* consulted if the output is materialized *)
  fs_write : WriteOutcome;    (* consulted if the frame is written *)
  fs_show : option Exn        (* the display conversion raises *)
}.

(** The block under [with self._recording_lock] inside the frame loop. *)
Definition record_frame (w : Worker) (s : Stream) (st : FrameStep)
  : Worker * Trace :=
  let (w1, e1) :=
    if recording w && negb (is_some (output_container w))
    then match path_given w with
         | Some path => materialize w path s (fs_frame st) (fs_mat st)
         | None => (w, [])
         end
    else (w, []) in
  let (w2, e2) :=
    if session_active w1 then write w1 (fs_frame st) (fs_write st)
    else (w1, []) in
  (w2, e1 ++ e2).

Definition qimage_of (f : Frame) : QImage :=
  mkQImage (f_id f) (f_width f) (f_height f).

(** *** The frame loop *)

Inductive DecodeEnd :=
| StreamEnds
| DecodeRaises (e : Exn).

Inductive LoopExit :=
| LoopDone                  (* iterator exhausted, or [break] on stop *)
| LoopRaised (e : Exn).

Fixpoint decode_loop (w : Worker) (s : Stream) (steps : list FrameStep)
                     (end_cmds : list Command) (fin : DecodeEnd)
  : Worker * Trace * LoopExit :=
  match steps with
  | [] =>
      let (w1, e1) := apply_commands w end_cmds in
      match fin with
      | StreamEnds => (w1, e1, LoopDone)
      | DecodeRaises e => (w1, e1, LoopRaised e)
      end
  | st :: rest =>
      let (w1, e1) := apply_commands w (fs_cmds st) in
      if stop_flag w1 then (w1, e1, LoopDone)
      else
        let (w2, e2) := record_frame w1 s st in
        match fs_show st with
        | Some e => (w2, e1 ++ e2, LoopRaised e)
        | None =>
            let img := qimage_of (fs_frame st) in
            let '(w3, e3, ex) :=
              decode_loop (set_last_qimage (Some img) w2) s rest
                          end_cmds fin in
            (w3, e1 ++ e2 ++ EvFrameReady img :: e3, ex)
        end
  end.

(** *** Flushing after the frame loop *)

(** [FlushRaises done]: the flush block raised after [done] were muxed
    (the exception is swallowed). *)
Inductive FlushOutcome :=
| FlushOk (pkts : list Packet)
| FlushRaises (done : list Packet).

Definition flush_encoder (w : Worker) (o : FlushOutcome) : Worker * Trace :=
  if recording w && is_some (output_stream w)
  then
    let pkts := match o with FlushOk p => p | FlushRaises d => d end in
    match output_container w with
    | Some _ => (mux_all pkts w, EvFlush :: map EvMux pkts)
    | None => (w, [EvFlush])
    end
  else (w, []).

(** *** The reconnect loop *)

(** What [av.open(url)] gives when it succeeds. *)
Record Source := mkSource {
  src_streams : list Stream;
  src_frames : list FrameStep;
  src_end_cmds : list Command;   (* controller calls before the stream ends *)
  src_end : DecodeEnd
}.

Inductive OpenResult :=
| OpenRaises (e : Exn)
| Opened (src : Source).

(** One pass through the body of [while not self._stop.is_set()]. *)
Record Attempt := mkAttempt {
  at_pre : list Command;        (* controller calls before the loop test *)
  at_open_cmds : list Command;  (* controller calls while av.open blocks *)
  at_open : OpenResult;
  at_flush : FlushOutcome
}.

Inductive IterExit := IterBreak | IterContinue.

Definition mk_opts (transport : string) (latency_ms : Z) : Options :=
  mkOptions transport 5000000 (Z.max 0 latency_ms * 1000).

Definition retry_message (e : Exn) : string :=
  match e with
  | AvError m => "FFmpeg/PyAV error: " ++ m ++ "; retrying in 2s…"
  | OtherError m => "Error: " ++ m ++ "; retrying in 2s…"
  end%string.

(** The two [except] clauses of the loop body. *)
Definition on_exception (w : Worker) (e : Exn) : Trace * IterExit :=
  if stop_flag w then ([], IterBreak)
  else ([EvStatus (retry_message e); EvSleep 2%Q], IterContinue).

Definition first_video (streams : list Stream) : option Stream :=
  find (fun s => String.eqb (st_type s) "video") streams.

(** The head of the loop body: the status, then [av.open(url, ...)]. *)
Definition connecting (url transport : string) (latency_ms : Z) : Trace :=
  [EvStatus "Connecting…"; EvOpenSource url (mk_opts transport latency_ms)].

Definition attempt (url transport : string) (latency_ms : Z)
                   (w : Worker) (a : Attempt) : Worker * Trace * IterExit :=
  let connecting := connecting url transport latency_ms in
  let (w1, e1) := apply_commands w (at_open_cmds a) in
  match at_open a with
  | OpenRaises e =>
      let (e2, x) := on_exception w1 e in (w1, connecting ++ e1 ++ e2, x)
  | Opened src =>
      match first_video (src_streams src) with
      | None =>
          (w1, connecting ++ e1 ++ [EvStatus "No video stream found"],
           IterBreak)
      | Some s =>
          let '(w2, e2, ex) :=
            decode_loop w1 s (src_frames src) (src_end_cmds src)
                        (src_end src) in
          let played := connecting ++ e1 ++ EvStatus "Playing" :: e2 in
          match ex with
          | LoopRaised e =>
              let (e3, x) := on_exception w2 e in (w2, played ++ e3, x)
          | LoopDone =>
              let (w3, e3) := flush_encoder w2 (at_flush a) in
              if stop_flag w3 then (w3, played ++ e3, IterBreak)
              else (w3,
                    played ++ e3
                      ++ [EvStatus "Stream ended, reconnecting in 2s…";
                          EvSleep 2%Q],
                    IterContinue)
          end
      end
  end.

(** The end of a thread object that is still held. *)
Definition thread_exited (w : Worker) : Worker :=
  match thread w with
  | Some _ => set_thread (Some (mkThread false)) w
  | None => w
  end.

(** After the loop: [self.stop_recording(); self.stopped.emit()]. *)
Definition cleanup (w : Worker) : Worker * Trace :=
  let (w1, e1) := stop_recording w in
  (thread_exited w1, e1 ++ [EvStopped]).

(** [_run] against a finite script of attempts.  [Running] is the worker
    still inside the loop when the script has been used up. *)
Inductive RunResult :=
| Finished (w : Worker) (tr : Trace)
| Running (w : Worker) (tr : Trace).

Definition prepend (tr : Trace) (r : RunResult) : RunResult :=
  match r with
  | Finished w t => Finished w (tr ++ t)
  | Running w t => Running w (tr ++ t)
  end.

Definition finish (w : Worker) (tr : Trace) : RunResult :=
  let (w1, e1) := cleanup w in Finished w1 (tr ++ e1).

Fixpoint run (url transport : string) (latency_ms : Z)
             (w : Worker) (script : list Attempt) : RunResult :=
  match script with
  | [] => if stop_flag w then finish w [] else Running w []
  | a :: rest =>
      let (w1, e1) := apply_commands w (at_pre a) in
      if stop_flag w1 then finish w1 e1
      else
        let '(w2, e2, x) := attempt url transport latency_ms w1 a in
        match x with
        | IterBreak => finish w2 (e1 ++ e2)
        | IterContinue =>
            prepend (e1 ++ e2) (run url transport latency_ms w2 rest)
        end
  end.

Definition trace_of (r : RunResult) : Trace :=
  match r with Finished _ t | Running _ t => t end.

Definition worker_of (r : RunResult) : Worker :=
  match r with Finished w _ | Running w _ => w end.

(** ** Reading traces *)

Definition delivered (tr : Trace) : list nat :=
  flat_map (fun e => match e with
                     | EvFrameReady img => [qi_frame img]
                     | _ => []
                     end) tr.

Definition offered (tr : Trace) : list nat :=
  flat_map (fun e => match e with EvOffer i => [i] | _ => [] end) tr.

(** The timestamps handed to the encoder, in order. *)
Definition encoded_pts (tr : Trace) : list Z :=
  flat_map (fun e => match e with EvEncode _ p => [p] | _ => [] end) tr.

Definition sleeps (tr : Trace) : list Q :=
  flat_map (fun e => match e with EvSleep d => [d] | _ => [] end) tr.

Definition is_flush (e : Event) : bool :=
  match e with EvFlush => true | _ => false end.

Definition is_stopped (e : Event) : bool :=
  match e with EvStopped => true | _ => false end.

Definition is_connecting (e : Event) : bool :=
  match e with
  | EvStatus s => String.eqb s "Connecting…"
  | _ => false
  end.

Definition count (p : Event -> bool) (tr : Trace) : nat :=
  List.length (filter p tr).

(** The artifacts closed in a trace: what each [close] left in the file. *)
Definition closed (tr : Trace) : list Container :=
  flat_map (fun e => match e with EvClose c => [c] | _ => [] end) tr.

(** The last image published in a trace, [d] if there was none. *)
Definition last_image (d : option QImage) (tr : Trace) : option QImage :=
  fold_left (fun acc e => match e with
                          | EvFrameReady img => Some img
                          | _ => acc
                          end) tr d.

(** [keeps w tr w']: going from [w] to [w'] while emitting [tr], the cached
    image is the last one published, or the old one if none was. *)
Definition keeps (w : Worker) (tr : Trace) (w' : Worker) : Prop :=
  last_qimage w' = last_image (last_qimage w) tr.

(** What the recording methods emit: the recording status and the close of
    the output. *)
Definition controller_event (e : Event) : bool :=
  match e with
  | EvRecordingStatus _ | EvClose _ => true
  | _ => false
  end.

Definition no_video (src : Source) : Prop :=
  Forall (fun s => st_type s <> "video") (src_streams src).

(** The events that mark the passes of the reconnect loop: the Connecting
    status at its head, the backoff sleep at its end, and [stopped] after
    it. *)
Definition pass_marker (e : Event) : bool :=
  match e with
  | EvSleep _ | EvStopped => true
  | _ => is_connecting e
  end.

Definition unmarked (tr : Trace) : Prop :=
  Forall (fun e => pass_marker e = false) tr.

(** Every sleep of the trace is shorter than a second. *)
Definition subsecond_sleeps (tr : Trace) : Prop :=
  Forall (fun d => (d < 1)%Q) (sleeps tr).

(** A frame that is handled undisturbed: no controller call before it, the
    conversions do not raise. *)
Definition plain (st : FrameStep) : bool :=
  match fs_cmds st, fs_show st, fs_write st with
  | [], None, WConvRaises _ => false
  | [], None, _ => true
  | _, _, _ => false
  end.

(** The timestamps of a session whose first frame had timestamp [start],
    from frame number [n] on. *)
Fixpoint stamps (start : option Z) (n : Z) (frames : list Frame) : list Z :=
  match frames with
  | [] => []
  | f :: rest =>
      match f_pts f, start with
      | Some p, Some p0 => p - p0
      | _, _ => n
      end :: stamps start (n + 1) rest
  end.

(** The controller does not stop the recording. *)
Definition keeps_recording (cs : list Command) : bool :=
  forallb (fun c => match c with CmdStopRecording => false | _ => true end)
          cs.

(** The frames of a source, in decode order. *)
Definition decode_order (steps : list FrameStep) : list nat :=
  map (fun st => f_id (fs_frame st)) steps.

(** ** Scenarios *)

Definition attempt_of (o : OpenResult) : Attempt :=
  mkAttempt [] [] o (FlushOk []).

(** A source that carries sound only. *)
Definition audio_only : Source :=
  mkSource [mkStream "audio" None 0 0] [] [] StreamEnds.

(** A camera that does not answer. *)
Definition unreachable : Attempt :=
  attempt_of (OpenRaises (AvError "Connection timed out")).

(** [stop] is called while the worker sleeps. *)
Definition stop_requested : Attempt :=
  mkAttempt [CmdSetStop] [] (OpenRaises (AvError "Connection timed out"))
            (FlushOk []).

(** A worker on which recording to out.mkv has been requested. *)
Definition requested : Worker := fst (fst (start_recording init "out.mkv")).

Definition camera : Stream := mkStream "video" (Some 25%Q) 1920 1080.

Definition shot (i : nat) (pts : option Z) : Frame := mkFrame i pts 1920 1080.

(** A frame for which everything goes well; the encoder hands back [pkts]. *)
Definition step_of (f : Frame) (pkts : list Packet) : FrameStep :=
  mkStep [] f MatOk (WOk pkts) None.

(** The session after its first frame: the output is open, the frame went
    to the encoder, which holds it back and has handed out no packet yet. *)
Definition in_session : Worker :=
  fst (record_frame requested camera (step_of (shot 0 (Some 9000)) [])).

(** A first frame on a machine whose ffmpeg has no h264 encoder: the file
    opens, [add_stream] raises. *)
Definition no_encoder : FrameStep :=
  mkStep [] (shot 0 (Some 9000)) (MatAddStreamRaises "Unknown encoder 'h264'")
         (WOk []) None.

(** One connection that plays [steps] to the end of the stream. *)
Definition playing (steps : list FrameStep) : Attempt :=
  attempt_of (Opened (mkSource [camera] steps [] StreamEnds)).

(** The controller stops the recording while the next frame is awaited. *)
Definition then_stop_recording (st : FrameStep) : FrameStep :=
  mkStep [CmdStopRecording] (fs_frame st) (fs_mat st) (fs_write st)
         (fs_show st).

(** [stop] is called while the second frame is awaited; the flush at the
    end of the frame loop then drains the frame the encoder held. *)
Definition stopped_while_playing : Attempt :=
  mkAttempt [] []
    (Opened (mkSource [camera]
               [step_of (shot 0 (Some 9000)) [];
                mkStep [CmdSetStop] (shot 1 (Some 9040)) MatOk (WOk []) None]
               [] StreamEnds))
    (FlushOk [0%nat]).

(** ** More readings of traces and scripts *)

(** The controller sets the cancel signal among these calls. *)
Definition sets_stop (cs : list Command) : bool :=
  existsb (fun c => match c with CmdSetStop => true | _ => false end) cs.

(** What the frame loop publishes, read off the cancel signal and the
    display conversions alone: the frames up to the first one that finds
    the signal set or whose conversion raises. *)
Fixpoint shown (stopped : bool) (steps : list FrameStep) : list nat :=
  match steps with
  | [] => []
  | st :: rest =>
      if stopped || sets_stop (fs_cmds st) then []
      else match fs_show st with
           | Some _ => []
           | None => f_id (fs_frame st) :: shown false rest
           end
  end.


(** Reading the recording-status notifications of a trace against the
    flag [cur]: each must turn the flag over; the result is the flag after
    the last one. *)
Fixpoint transitions (cur : bool) (tr : Trace) : option bool :=
  match tr with
  | [] => Some cur
  | EvRecordingStatus b :: rest =>
      if Bool.eqb b cur then None else transitions b rest
  | _ :: rest => transitions cur rest
  end.

(** A pass during which nobody calls [stop] and which does not end for
    want of a video stream. *)
Definition retries (a : Attempt) : bool :=
  negb (sets_stop (at_pre a)) && negb (sets_stop (at_open_cmds a)) &&
  match at_open a with
  | OpenRaises _ => true
  | Opened src =>
      is_some (first_video (src_streams src)) &&
      forallb (fun st => negb (sets_stop (fs_cmds st))) (src_frames src) &&
      negb (sets_stop (src_end_cmds src))
  end.

(** The initialisation succeeds, or fails at opening the file. *)
Definition opens_or_not (m : MatOutcome) : bool :=
  match m with
  | MatOk | MatOpenRaises _ => true
  | _ => false
  end.

Definition opens_or_not_throughout (a : Attempt) : bool :=
  match at_open a with
  | OpenRaises _ => true
  | Opened src => forallb (fun st => opens_or_not (fs_mat st)) (src_frames src)
  end.

(** No output is held unless a recording is on, and no stream without its
    container. *)
Definition tidy (w : Worker) : Prop :=
  (recording w = false -> output_container w = None) /\
  (output_container w = None -> output_stream w = None).

(** A stream is held only inside a container, and the counter has not gone
    below zero. *)
Definition sound (w : Worker) : Prop :=
  (output_container w = None -> output_stream w = None) /\
  0 <= frame_count w.

(** [follows w tr w']: the notifications of [tr] are the changes of the
    recording flag between [w] and [w']. *)
Definition follows (w : Worker) (tr : Trace) (w' : Worker) : Prop :=
  transitions (recording w) tr = Some (recording w').

(** Every frame of the pass satisfies [ok]. *)
Definition frames_all (ok : FrameStep -> bool) (a : Attempt) : bool :=
  match at_open a with
  | OpenRaises _ => true
  | Opened src => forallb ok (src_frames src)
  end.

(** * The application window (class RtspApp)

    The part of the window that drives the workers: the per-panel state
    dictionaries, the URL built from them, and the slots that start and
    stop streams and recordings. *)

From Stdlib Require Import Ascii DecimalString.

(** ** Python values and dictionaries *)

(** The values a panel state can hold.  [VOther] stands for any value
    that is neither a string, an integer, a boolean nor None (a float, a
    list or a dictionary read from a configuration file), by what [str]
    prints for it and by its truth value. *)
Inductive Value :=
| VStr (s : string)
| VInt (n : Z)
| VBool (b : bool)
| VNone
| VOther (printed : string) (truth : bool).

(** Truth value, as [if v] and [not v] take it. *)
Definition truthy (v : Value) : bool :=
  match v with
  | VStr s => negb (String.eqb s "")
  | VInt n => negb (n =? 0)
  | VBool b => b
  | VNone => false
  | VOther _ t => t
  end.

Definition decimal (n : Z) : string := NilZero.string_of_int (Z.to_int n).

(** What an f-string prints for a value. *)
Definition str (v : Value) : string :=
  match v with
  | VStr s => s
  | VInt n => decimal n
  | VBool true => "True"
  | VBool false => "False"
  | VNone => "None"
  | VOther p _ => p
  end.

(** A dictionary with string keys, in insertion order. *)
Definition Dict := list (string * Value).

(** [d[k]], [None] standing for KeyError. *)
Fixpoint lookup (k : string) (d : Dict) : option Value :=
  match d with
  | [] => None
  | (k', v) :: rest => if String.eqb k k' then Some v else lookup k rest
  end.

(** [d.get(k, default)] *)
Definition get (k : string) (default : Value) (d : Dict) : Value :=
  match lookup k d with
  | Some v => v
  | None => default
  end.

(** [d[k] = v] *)
Fixpoint store (k : string) (v : Value) (d : Dict) : Dict :=
  match d with
  | [] => [(k, v)]
  | (k', v') :: rest =>
      if String.eqb k k' then (k', v) :: rest else (k', v') :: store k v rest
  end.

(** The exceptions the slots can run into. *)
Inductive Exc :=
| KeyError (k : string)
| IndexError
| AttributeError (attr : string).

Inductive Res (A : Type) :=
| Ok (a : A)
| Raise (e : Exc).

Arguments Ok {A} a.
Arguments Raise {A} e.

(** ** build_url_from_state *)

Definition build_url_from_state (st : Dict) (include_password : bool)
  : Res string :=
  let user := get "user" (VStr "") st in
  let pwd := get "pass" (VStr "") st in
  let ip := get "ip" (VStr "") st in
  let port := get "port" (VInt 554) st in
  let slug := get "slug" (VStr "") st in
  let channel := get "channel" (VStr "1") st in
  let subtype := get "subtype" (VStr "0") st in
  if negb (truthy ip) then Ok ""
  else
    match slug with
    | VStr s =>
        let slug := if negb (prefix "/" s) then ("/" ++ s)%string else s in
        let cred :=
          if truthy user
          then
            let cred_pass :=
              if truthy pwd && include_password
              then (":" ++ str pwd)%string else "" in
            (str user ++ cred_pass ++ "@")%string
          else "" in
        Ok ("rtsp://" ++ cred ++ str ip ++ ":" ++ str port ++ slug
              ++ "?channel=" ++ str channel
              ++ "&subtype=" ++ str subtype)%string
    | _ => Raise (AttributeError "startswith")
    end.

(** ** The window's state *)

(** What the controls of the form currently hold. *)
Record Form := mkForm {
  title_edit : string;
  user_edit : string;
  pass_edit : string;
  ip_edit : string;
  port_spin : Z;
  slug_edit : string;
  channel_combo : string;
  subtype_combo : string;
  transport_combo : string;
  latency_spin : Z
}.

Record App := mkApp {
  panel_states : list Dict;
  workers : list Worker;
  active_index : Z;
  form : Form
}.

(** What [_update_buttons_enabled] sets on the buttons. *)
Record Buttons := mkButtons {
  start_btn : bool;           (* setEnabled(not running) *)
  stop_btn : Value;           (* setEnabled(running) *)
  snapshot_btn : Value;
  record_btn : Value;
  record_text : string;
  record_property : Value;
  fullscreen_btn : bool
}.

Inductive MessageBox := Warning | Information.

(** What a slot does besides changing the state: the effects of the worker
    methods it calls, the thread it starts, the dialogs it shows and what
    it writes to the widgets. *)
Inductive GuiEvent :=
| GuiWorker (i : Z) (e : Event)
| GuiThread (i : Z) (url : string) (transport latency : Value)
| GuiMessage (kind : MessageBox) (title text : string)
| GuiSaveDialog (caption default_name filter : string)
| GuiButtons (b : Buttons)
| GuiPaneTitle (i : Z) (text : string)
| GuiStatusLabel (text : string).

(** [l[i]], with Python's negative indices; [None] stands for IndexError. *)
Definition item {A} (l : list A) (i : Z) : option A :=
  let n := Z.of_nat (List.length l) in
  if 0 <=? i then nth_error l (Z.to_nat i)
  else if - n <=? i then nth_error l (Z.to_nat (n + i))
  else None.

Fixpoint replace_nth {A} (n : nat) (x : A) (l : list A) : list A :=
  match l, n with
  | [], _ => []
  | _ :: rest, O => x :: rest
  | y :: rest, S m => y :: replace_nth m x rest
  end.

(** The list after the object at [l[i]] has been changed into [x]. *)
Definition set_item {A} (l : list A) (i : Z) (x : A) : list A :=
  let n := Z.of_nat (List.length l) in
  if 0 <=? i then replace_nth (Z.to_nat i) x l
  else if - n <=? i then replace_nth (Z.to_nat (n + i)) x l
  else l.

(** A slot: it changes the window, has effects, and returns or raises. *)
Definition Gui (A : Type) : Type := App -> App * list GuiEvent * Res A.

Definition ret {A} (a : A) : Gui A := fun app => (app, [], Ok a).

Definition raise {A} (e : Exc) : Gui A := fun app => (app, [], Raise e).

Definition bind {A B} (m : Gui A) (k : A -> Gui B) : Gui B :=
  fun app =>
    let '(app1, e1, r) := m app in
    match r with
    | Ok a => let '(app2, e2, r2) := k a app1 in (app2, e1 ++ e2, r2)
    | Raise x => (app1, e1, Raise x)
    end.

Declare Scope gui_scope.
Delimit Scope gui_scope with gui.
Bind Scope gui_scope with Gui.

Notation "x <- m ;; k" := (bind m (fun x => k))
  (at level 61, m at next level, right associativity) : gui_scope.
Notation "m ;; k" := (bind m (fun _ => k))
  (at level 61, right associativity) : gui_scope.

Definition emit (e : GuiEvent) : Gui unit := fun app => (app, [e], Ok tt).

Definition emit_all (es : list GuiEvent) : Gui unit :=
  fun app => (app, es, Ok tt).

Definition active : Gui Z := fun app => (app, [], Ok (active_index app)).

Definition the_form : Gui Form := fun app => (app, [], Ok (form app)).

(** [self.panel_states[i]] *)
Definition panel (i : Z) : Gui Dict :=
  fun app =>
    match item (panel_states app) i with
    | Some st => (app, [], Ok st)
    | None => (app, [], Raise IndexError)
    end.

(** [self.workers[i]] *)
Definition worker (i : Z) : Gui Worker :=
  fun app =>
    match item (workers app) i with
    | Some w => (app, [], Ok w)
    | None => (app, [], Raise IndexError)
    end.

Definition set_panel (i : Z) (st : Dict) : Gui unit :=
  fun app =>
    (mkApp (set_item (panel_states app) i st) (workers app)
           (active_index app) (form app), [], Ok tt).

Definition set_worker (i : Z) (w : Worker) : Gui unit :=
  fun app =>
    (mkApp (panel_states app) (set_item (workers app) i w)
           (active_index app) (form app), [], Ok tt).

(** [st[k]] *)
Definition key (k : string) (st : Dict) : Gui Value :=
  match lookup k st with
  | Some v => ret v
  | None => raise (KeyError k)
  end.

(** [self.panel_states[i][k] = v] *)
Definition store_panel (i : Z) (k : string) (v : Value) : Gui unit :=
  (st <- panel i ;; set_panel i (store k v st))%gui.

(** A method of [self.workers[i]] that returns nothing. *)
Definition call_worker (i : Z) (method : Worker -> Worker * Trace)
  : Gui unit :=
  (w <- worker i ;;
   let (w', tr) := method w in
   set_worker i w' ;; emit_all (map (GuiWorker i) tr))%gui.

(** A method of [self.workers[i]] that returns a boolean. *)
Definition ask_worker (i : Z) (method : Worker -> Worker * bool * Trace)
  : Gui bool :=
  (w <- worker i ;;
   let '(w', answer, tr) := method w in
   set_worker i w' ;; emit_all (map (GuiWorker i) tr) ;; ret answer)%gui.

Definition lift {A} (r : Res A) : Gui A := fun app => (app, [], r).


(** ** The slots *)



(** [worker.start(url, transport, latency)] on [self.workers[i]]. *)
Definition start_worker (i : Z) (url : string) (transport latency : Value)
  : Gui unit :=
  (call_worker i start ;; emit (GuiThread i url transport latency))%gui.



(** [st['title'].replace(' ', '_')] *)
Fixpoint replace_spaces (s : string) : string :=
  match s with
  | EmptyString => EmptyString
  | String c rest =>
      String (if Ascii.eqb c " "%char then "_"%char else c)
             (replace_spaces rest)
  end.

Definition default_name (st : Dict) (extension : string) : Gui string :=
  (title <- key "title" st ;;
   match title with
   | VStr t => ret (replace_spaces t ++ extension)%string
   | _ => raise (AttributeError "replace")
   end)%gui.




(** The callback made by [_make_status_updater(index)]. *)
Definition update_status (index : Z) (msg : string) : Gui unit :=
  (st <- panel index ;;
   let pane_title :=
     get "title" (VStr ("Feed " ++ decimal (index + 1))) st in
   emit (GuiPaneTitle index (str pane_title ++ ": " ++ msg)) ;;
   a <- active ;;
   if index =? a
   then emit (GuiStatusLabel ("Panel " ++ decimal (index + 1) ++ ": " ++ msg))
   else ret tt)%gui.








(** ** Reading the window's state *)







Definition is_gui_worker (e : GuiEvent) : bool :=
  match e with GuiWorker _ _ => true | _ => false end.












(** * Properties *)

(** ** The controller-side methods *)

(** C6: [start_recording] on a worker that is already recording returns
    False, leaves every field as it was (so no second output is created) and
    emits nothing. *)
Theorem start_recording_when_active (w : Worker) (path : string) :
  recording w = true ->
  start_recording w path = (w, false, []).
Proof.
  intros Hrec. unfold start_recording. now rewrite Hrec.
Qed.

(** The second of two calls in a row is such a call. *)
Lemma start_recording_sets_flag (w : Worker) (path : string) :
  recording (fst (fst (start_recording w path))) = true.
Proof.
  unfold start_recording. destruct (recording w) eqn:E; simpl; auto.
Qed.

Lemma start_recording_when_active_witness :
  let w1 := fst (fst (start_recording init "a.mkv")) in
  start_recording w1 "b.mkv" = (w1, false, []).
Proof.
  exact (start_recording_when_active
           (fst (fst (start_recording init "a.mkv"))) "b.mkv" eq_refl).
Defined.

(** C7: [stop_recording] on a worker that is not recording changes no field
    and emits nothing. *)
Theorem stop_recording_when_idle (w : Worker) :
  recording w = false ->
  stop_recording w = (w, []).
Proof.
  intros Hrec. unfold stop_recording. now rewrite Hrec.
Qed.

Lemma stop_recording_when_idle_witness : stop_recording init = (init, []).
Proof.
  exact (stop_recording_when_idle init eq_refl).
Defined.

(** C10: [stop] on a worker whose thread is not running only drops the
    thread handle: the cancel signal is not set, nothing is joined or
    emitted, and every other field keeps its value. *)
Theorem stop_when_not_running (w : Worker) :
  thread_running w = false ->
  let (w', tr) := stop w in
  tr = [] /\
  w' = set_thread None w /\
  stop_flag w' = stop_flag w /\
  recording w' = recording w /\
  output_container w' = output_container w /\
  output_stream w' = output_stream w /\
  recording_path w' = recording_path w /\
  last_qimage w' = last_qimage w.
Proof.
  intros Hrun. unfold stop. rewrite Hrun. simpl. repeat split.
Qed.

Lemma stop_when_not_running_witness :
  let (w', tr) := stop (set_thread (Some (mkThread false)) init) in
  tr = [] /\
  w' = set_thread None (set_thread (Some (mkThread false)) init) /\
  stop_flag w' = false /\
  recording w' = false /\
  output_container w' = None /\
  output_stream w' = None /\
  recording_path w' = None /\
  last_qimage w' = None.
Proof.
  exact (stop_when_not_running
           (set_thread (Some (mkThread false)) init) eq_refl).
Defined.

(** ** The cached frame *)

Lemma last_image_app (d : option QImage) (a b : Trace) :
  last_image d (a ++ b) = last_image (last_image d a) b.
Proof. unfold last_image. apply fold_left_app. Qed.

Lemma last_image_mux (d : option QImage) (pkts : list Packet) :
  last_image d (map EvMux pkts) = d.
Proof. induction pkts as [|p pkts IH]; simpl; auto. Qed.

Lemma keeps_trans (w w1 w2 : Worker) (a b : Trace) :
  keeps w a w1 -> keeps w1 b w2 -> keeps w (a ++ b) w2.
Proof.
  unfold keeps. intros H1 H2. now rewrite last_image_app, <- H1.
Qed.

Lemma keeps_stop_recording (w : Worker) :
  keeps w (snd (stop_recording w)) (fst (stop_recording w)).
Proof.
  unfold keeps, stop_recording.
  destruct (recording w); simpl; auto.
  destruct (output_container w); simpl; auto.
Qed.

Lemma keeps_apply_command (w : Worker) (c : Command) :
  keeps w (snd (apply_command w c)) (fst (apply_command w c)).
Proof.
  destruct c as [path| |]; simpl.
  - unfold keeps, start_recording. destruct (recording w); simpl; auto.
  - apply keeps_stop_recording.
  - reflexivity.
Qed.

Lemma keeps_apply_commands (cs : list Command) (w : Worker) :
  keeps w (snd (apply_commands w cs)) (fst (apply_commands w cs)).
Proof.
  revert w. induction cs as [|c cs IH]; intros w; simpl.
  - reflexivity.
  - pose proof (keeps_apply_command w c) as Hc.
    destruct (apply_command w c) as [w1 e1]. simpl in Hc.
    pose proof (IH w1) as Hcs.
    destruct (apply_commands w1 cs) as [w2 e2]. simpl in *.
    eapply keeps_trans; eauto.
Qed.

Lemma keeps_materialize (w : Worker) (path : string) (s : Stream)
                        (f : Frame) (o : MatOutcome) :
  keeps w (snd (materialize w path s f o)) (fst (materialize w path s f o)).
Proof. destruct o; reflexivity. Qed.

Lemma keeps_mux_all (pkts : list Packet) (w : Worker) :
  last_qimage (mux_all pkts w) = last_qimage w.
Proof. unfold mux_all. destruct (output_container w); reflexivity. Qed.

Lemma keeps_write (w : Worker) (f : Frame) (o : WriteOutcome) :
  keeps w (snd (write w f o)) (fst (write w f o)).
Proof.
  unfold keeps. destruct o as [pkts|e|e|done e]; simpl; auto.
  - now rewrite keeps_mux_all, last_image_mux.
  - now rewrite keeps_mux_all, last_image_app, last_image_mux.
Qed.

Lemma keeps_record_frame (w : Worker) (s : Stream) (st : FrameStep) :
  keeps w (snd (record_frame w s st)) (fst (record_frame w s st)).
Proof.
  unfold record_frame.
  match goal with
  | |- context [let (_, _) := ?m in _] =>
      assert (Hm : keeps w (snd m) (fst m));
      [| destruct m as [w1 e1]; simpl in Hm ]
  end.
  { destruct (recording w && negb (is_some (output_container w)));
      [destruct (path_given w); [apply keeps_materialize|]|]; reflexivity. }
  destruct (session_active w1).
  - pose proof (keeps_write w1 (fs_frame st) (fs_write st)) as Hw.
    destruct (write w1 (fs_frame st) (fs_write st)) as [w2 e2]. simpl in *.
    eapply keeps_trans; eauto.
  - simpl. rewrite app_nil_r. exact Hm.
Qed.

Lemma keeps_decode_loop (s : Stream) (steps : list FrameStep)
                        (cs : list Command) (fin : DecodeEnd) (w : Worker) :
  keeps w (snd (fst (decode_loop w s steps cs fin)))
          (fst (fst (decode_loop w s steps cs fin))).
Proof.
  revert w. induction steps as [|st steps IH]; intros w; simpl.
  - pose proof (keeps_apply_commands cs w) as Hc.
    destruct (apply_commands w cs) as [w1 e1]. destruct fin; exact Hc.
  - pose proof (keeps_apply_commands (fs_cmds st) w) as Hc.
    destruct (apply_commands w (fs_cmds st)) as [w1 e1]. simpl in Hc.
    destruct (stop_flag w1); [exact Hc|].
    pose proof (keeps_record_frame w1 s st) as Hr.
    destruct (record_frame w1 s st) as [w2 e2]. simpl in Hr.
    destruct (fs_show st) as [e|]; simpl.
    + eapply keeps_trans; eauto.
    + specialize (IH (set_last_qimage (Some (qimage_of (fs_frame st))) w2)).
      destruct (decode_loop _ s steps cs fin) as [[w3 e3] ex]. simpl in *.
      eapply keeps_trans; [exact Hc|].
      eapply keeps_trans; [exact Hr|].
      unfold keeps in *. simpl. exact IH.
Qed.

Lemma keeps_flush_encoder (w : Worker) (o : FlushOutcome) :
  keeps w (snd (flush_encoder w o)) (fst (flush_encoder w o)).
Proof.
  unfold keeps, flush_encoder.
  destruct (recording w && is_some (output_stream w)); simpl; auto.
  destruct (output_container w) eqn:E; simpl; auto.
  now rewrite keeps_mux_all, last_image_mux.
Qed.

Ltac frames :=
  unfold keeps, last_image in *; simpl in *;
  repeat (rewrite fold_left_app; simpl).

Lemma keeps_attempt (url transport : string) (latency_ms : Z)
                    (w : Worker) (a : Attempt) :
  keeps w (snd (fst (attempt url transport latency_ms w a)))
          (fst (fst (attempt url transport latency_ms w a))).
Proof.
  unfold attempt.
  pose proof (keeps_apply_commands (at_open_cmds a) w) as Hc.
  destruct (apply_commands w (at_open_cmds a)) as [w1 e1].
  destruct (at_open a) as [e|src].
  - unfold on_exception. destruct (stop_flag w1); frames; congruence.
  - destruct (first_video (src_streams src)) as [s|].
    2:{ frames. congruence. }
    pose proof (keeps_decode_loop s (src_frames src) (src_end_cmds src)
                  (src_end src) w1) as Hd.
    destruct (decode_loop w1 s (src_frames src) (src_end_cmds src)
                (src_end src)) as [[w2 e2] ex].
    destruct ex as [|e].
    + pose proof (keeps_flush_encoder w2 (at_flush a)) as Hf.
      destruct (flush_encoder w2 (at_flush a)) as [w3 e3].
      destruct (stop_flag w3); frames; congruence.
    + unfold on_exception. destruct (stop_flag w2); frames; congruence.
Qed.

Lemma keeps_cleanup (w : Worker) :
  keeps w (snd (cleanup w)) (fst (cleanup w)).
Proof.
  unfold cleanup. pose proof (keeps_stop_recording w) as Hs.
  destruct (stop_recording w) as [w1 e1].
  unfold thread_exited. destruct (thread w1); frames; congruence.
Qed.

Lemma keeps_finish (w0 w : Worker) (tr : Trace) :
  keeps w0 tr w ->
  keeps w0 (trace_of (finish w tr)) (worker_of (finish w tr)).
Proof.
  intros H. unfold finish. pose proof (keeps_cleanup w) as Hc.
  destruct (cleanup w) as [w1 e1]. simpl in *. eapply keeps_trans; eauto.
Qed.

Lemma keeps_prepend (w0 w : Worker) (tr : Trace) (r : RunResult) :
  keeps w0 tr w ->
  keeps w (trace_of r) (worker_of r) ->
  keeps w0 (trace_of (prepend tr r)) (worker_of (prepend tr r)).
Proof.
  intros H1 H2. destruct r; simpl in *; eapply keeps_trans; eauto.
Qed.

Lemma keeps_run (url transport : string) (latency_ms : Z)
                (script : list Attempt) (w : Worker) :
  keeps w (trace_of (run url transport latency_ms w script))
          (worker_of (run url transport latency_ms w script)).
Proof.
  revert w. induction script as [|a rest IH]; intros w; simpl.
  - destruct (stop_flag w); [apply keeps_finish|]; reflexivity.
  - pose proof (keeps_apply_commands (at_pre a) w) as Hc.
    destruct (apply_commands w (at_pre a)) as [w1 e1]. simpl in Hc.
    destruct (stop_flag w1); [now apply keeps_finish|].
    pose proof (keeps_attempt url transport latency_ms w1 a) as Ha.
    destruct (attempt url transport latency_ms w1 a) as [[w2 e2] x].
    simpl in Ha.
    assert (H12 : keeps w (e1 ++ e2) w2) by (eapply keeps_trans; eauto).
    destruct x; [now apply keeps_finish|].
    apply keeps_prepend with (w := w2); auto.
Qed.

(** C9: [save_snapshot] fails when no image is cached and otherwise
    answers what writing the cached image answered, so it succeeds exactly
    when an image is cached and the write succeeded; it changes no field of
    the worker.  The cached image is the last frame a run published, and is
    absent as long as none was: after any run from a state [w0] the snapshot
    is taken of the last frame delivered, or of what [w0] had cached. *)
Theorem save_snapshot_spec (w w0 : Worker) (url transport : string)
    (latency_ms : Z) (script : list Attempt) (path : string) (saved : bool) :
  (save_snapshot w path saved
   = (w,
      match last_qimage w with Some _ => saved | None => false end,
      match last_qimage w with
      | Some img => [EvSaveImage img path]
      | None => []
      end)) /\
  (snd (fst (save_snapshot w path saved)) = true
   <-> is_some (last_qimage w) = true /\ saved = true) /\
  (let r := run url transport latency_ms w0 script in
   last_qimage (worker_of r) = last_image (last_qimage w0) (trace_of r)) /\
  (let r := run url transport latency_ms init script in
   delivered (trace_of r) = [] <->
   snd (fst (save_snapshot (worker_of r) path true)) = false).
Proof.
  split; [|split; [|split]].
  - unfold save_snapshot. destruct (last_qimage w); reflexivity.
  - unfold save_snapshot. destruct (last_qimage w); simpl; intuition congruence.
  - apply keeps_run.
  - cbv zeta. pose proof (keeps_run url transport latency_ms script init) as H.
    unfold keeps in H. unfold save_snapshot. rewrite H. simpl.
    generalize (trace_of (run url transport latency_ms init script)) as tr.
    intros tr.
    assert (G : forall d, (delivered tr = [] -> last_image d tr = d) /\
                          (delivered tr <> [] -> last_image d tr <> None)).
    { induction tr as [|e tr IH]; intros d; simpl.
      - split; congruence.
      - destruct e; simpl; try apply IH.
        split; [discriminate|]. intros _.
        destruct (delivered tr) eqn:E.
        + destruct (IH (Some img)) as [IH1 _].
          change (last_image (Some img) tr <> None).
          rewrite IH1; auto. discriminate.
        + apply (IH (Some img)). discriminate. }
    destruct (G None) as [G1 G2]. split.
    + intros E. now rewrite (G1 E).
    + intros E. destruct (delivered tr) eqn:D; auto.
      destruct (last_image None tr) eqn:L; simpl in E; try discriminate.
      exfalso. apply G2; auto. discriminate.
Qed.

(** ** The reconnect loop *)

(** Traces as right-nested appends. *)
Ltac norm_trace := repeat (progress (cbn [app]; rewrite <- ?app_assoc)).

Lemma count_app (p : Event -> bool) (a b : Trace) :
  count p (a ++ b) = (count p a + count p b)%nat.
Proof. unfold count. now rewrite filter_app, length_app. Qed.

Lemma count_cons (p : Event -> bool) (e : Event) (tr : Trace) :
  count p (e :: tr) = ((if p e then 1 else 0) + count p tr)%nat.
Proof. unfold count. simpl. now destruct (p e). Qed.

Lemma sleeps_cons (e : Event) (tr : Trace) :
  sleeps (e :: tr)
  = match e with EvSleep d => [d] | _ => [] end ++ sleeps tr.
Proof. reflexivity. Qed.

Lemma sleeps_app (a b : Trace) : sleeps (a ++ b) = sleeps a ++ sleeps b.
Proof. unfold sleeps. apply flat_map_app. Qed.

Lemma stop_recording_events (w : Worker) :
  Forall (fun e => controller_event e = true) (snd (stop_recording w)).
Proof.
  unfold stop_recording. destruct (recording w); simpl; auto.
  destruct (output_container w); simpl; auto.
Qed.

Lemma apply_commands_events (cs : list Command) (w : Worker) :
  Forall (fun e => controller_event e = true) (snd (apply_commands w cs)).
Proof.
  revert w. induction cs as [|c cs IH]; intros w; simpl; auto.
  assert (Hc : Forall (fun e => controller_event e = true)
                      (snd (apply_command w c))).
  { destruct c; simpl; auto using stop_recording_events.
    unfold start_recording. destruct (recording w); simpl; auto. }
  destruct (apply_command w c) as [w1 e1]. specialize (IH w1).
  destruct (apply_commands w1 cs) as [w2 e2]. simpl in *.
  apply Forall_app; auto.
Qed.

Lemma count_controller (p : Event -> bool) (tr : Trace) :
  (forall e, controller_event e = true -> p e = false) ->
  Forall (fun e => controller_event e = true) tr ->
  count p tr = 0%nat.
Proof.
  intros Hp H. unfold count. induction H as [|e tr He _ IH]; simpl; auto.
  now rewrite (Hp e He).
Qed.

Lemma sleeps_controller (tr : Trace) :
  Forall (fun e => controller_event e = true) tr -> sleeps tr = [].
Proof.
  intros H. induction H as [|e tr He _ IH]; simpl; auto.
  destruct e; simpl in *; try discriminate; auto.
Qed.

Lemma first_video_none (src : Source) :
  no_video src -> first_video (src_streams src) = None.
Proof.
  unfold no_video, first_video. intros H.
  induction H as [|s l Hs _ IH]; simpl; auto.
  destruct (String.eqb_spec (st_type s) "video"); [contradiction|auto].
Qed.

Lemma retry_message_says_retrying (e : Exn) :
  exists reason, retry_message e = (reason ++ "; retrying in 2s…")%string.
Proof.
  destruct e as [m|m]; simpl.
  - now exists ("FFmpeg/PyAV error: " ++ m)%string.
  - now exists ("Error: " ++ m)%string.
Qed.

(** C5: when the loop is entered and the opened source has no stream of
    type video, the run ends in that pass: it announces Connecting and
    No video stream found, cleans up and emits [stopped] once; it neither
    sleeps nor connects again, whatever would have come next.  When instead
    opening raises, or decoding raises, and the cancel signal is not set,
    the pass ends with a status that says retrying and a sleep, and the run
    goes on with the next pass. *)
Theorem no_video_stream_ends_run (url transport : string) (latency_ms : Z)
    (w : Worker) (a : Attempt) (rest : list Attempt) :
  let w1 := fst (apply_commands w (at_pre a)) in
  let e1 := snd (apply_commands w (at_pre a)) in
  let w2 := fst (apply_commands w1 (at_open_cmds a)) in
  let e2 := snd (apply_commands w1 (at_open_cmds a)) in
  let r := run url transport latency_ms w (a :: rest) in
  stop_flag w1 = false ->
  (forall src, at_open a = Opened src -> no_video src ->
     r = Finished (fst (cleanup w2))
           (e1 ++ connecting url transport latency_ms ++ e2
               ++ EvStatus "No video stream found" :: snd (cleanup w2)) /\
     count is_stopped (trace_of r) = 1%nat /\
     count is_connecting (trace_of r) = 1%nat /\
     sleeps (trace_of r) = []) /\
  (forall e, at_open a = OpenRaises e -> stop_flag w2 = false ->
     (exists reason,
        retry_message e = (reason ++ "; retrying in 2s…")%string) /\
     r = prepend (e1 ++ connecting url transport latency_ms ++ e2
                     ++ [EvStatus (retry_message e); EvSleep 2%Q])
                 (run url transport latency_ms w2 rest)) /\
  (forall src s w3 e3 e,
     at_open a = Opened src -> first_video (src_streams src) = Some s ->
     decode_loop w2 s (src_frames src) (src_end_cmds src) (src_end src)
       = (w3, e3, LoopRaised e) ->
     stop_flag w3 = false ->
     r = prepend (e1 ++ connecting url transport latency_ms ++ e2
                     ++ EvStatus "Playing" :: e3
                     ++ [EvStatus (retry_message e); EvSleep 2%Q])
                 (run url transport latency_ms w3 rest)).
Proof.
  cbv zeta. intros Hgo.
  pose proof (apply_commands_events (at_pre a) w) as Hpre.
  simpl run.
  destruct (apply_commands w (at_pre a)) as [w1 e1]. simpl in Hgo, Hpre.
  simpl fst; simpl snd. rewrite Hgo. unfold attempt.
  pose proof (apply_commands_events (at_open_cmds a) w1) as Hopen.
  destruct (apply_commands w1 (at_open_cmds a)) as [w2 e2].
  simpl in Hopen. simpl fst; simpl snd.
  split; [|split].
  - intros src Hsrc Hnone. rewrite Hsrc, (first_video_none src Hnone).
    unfold finish, cleanup.
    pose proof (stop_recording_events w2) as Hstop.
    destruct (stop_recording w2) as [w3 e3]. simpl in Hstop.
    unfold connecting. simpl fst; simpl snd; simpl trace_of.
    split; [f_equal; now norm_trace|].
    norm_trace.
    rewrite ?count_app, ?count_cons, ?sleeps_app, ?sleeps_cons.
    rewrite ?count_app, ?count_cons, ?sleeps_app, ?sleeps_cons.
    rewrite ?count_app, ?count_cons, ?sleeps_app, ?sleeps_cons.
    rewrite !(count_controller is_stopped), !(count_controller is_connecting),
            !sleeps_controller;
      auto; intros [] E; simpl in *; congruence.
  - intros e He Hgo2. rewrite He. unfold on_exception. rewrite Hgo2.
    split; [apply retry_message_says_retrying|].
    f_equal; unfold connecting; now norm_trace.
  - intros src s w3 e3 e Hsrc Hs Hloop Hgo3. rewrite Hsrc, Hs, Hloop.
    unfold on_exception. rewrite Hgo3.
    f_equal; unfold connecting; now norm_trace.
Qed.

Lemma no_video_stream_ends_run_witness :
  let r := run "rtsp://cam/live" "tcp" 100 init
               [attempt_of (Opened audio_only); unreachable] in
  r = Finished init
        [EvStatus "Connecting…";
         EvOpenSource "rtsp://cam/live" (mkOptions "tcp" 5000000 100000);
         EvStatus "No video stream found"; EvStopped] /\
  count is_stopped (trace_of r) = 1%nat /\
  count is_connecting (trace_of r) = 1%nat /\
  sleeps (trace_of r) = [].
Proof.
  apply (proj1 (no_video_stream_ends_run "rtsp://cam/live" "tcp" 100 init
                  (attempt_of (Opened audio_only)) [unreachable] eq_refl)
               audio_only eq_refl).
  repeat constructor. discriminate.
Defined.

(** *** What lies between the marks of a pass *)

Lemma unmarked_app (a b : Trace) :
  unmarked a -> unmarked b -> unmarked (a ++ b).
Proof. intros; apply Forall_app; auto. Qed.

Lemma unmarked_controller (tr : Trace) :
  Forall (fun e => controller_event e = true) tr -> unmarked tr.
Proof.
  apply Forall_impl. intros [] E; simpl in *; congruence.
Qed.

Lemma unmarked_mux (pkts : list Packet) : unmarked (map EvMux pkts).
Proof. induction pkts; constructor; auto. Qed.

Lemma count_unmarked (p : Event -> bool) (tr : Trace) :
  (forall e, p e = true -> pass_marker e = true) ->
  unmarked tr -> count p tr = 0%nat.
Proof.
  intros Hp H. unfold count. induction H as [|e tr He _ IH]; simpl; auto.
  destruct (p e) eqn:E; auto. rewrite (Hp e E) in He. discriminate.
Qed.

Lemma sleeps_unmarked (tr : Trace) : unmarked tr -> sleeps tr = [].
Proof.
  intros H. induction H as [|e tr He _ IH]; simpl; auto.
  destruct e; simpl in *; try discriminate; auto.
Qed.

Lemma unmarked_write (w : Worker) (f : Frame) (o : WriteOutcome) :
  unmarked (snd (write w f o)).
Proof.
  destruct o; simpl; repeat constructor; try apply unmarked_mux.
  apply unmarked_app; [apply unmarked_mux|repeat constructor].
Qed.

Lemma unmarked_record_frame (w : Worker) (s : Stream) (st : FrameStep) :
  unmarked (snd (record_frame w s st)).
Proof.
  unfold record_frame.
  match goal with
  | |- context [let (_, _) := ?m in _] =>
      assert (Hm : unmarked (snd m)); [| destruct m as [w1 e1]; simpl in Hm ]
  end.
  { destruct (recording w && negb (is_some (output_container w)));
      [destruct (path_given w)|]; try constructor.
    destruct (fs_mat st); simpl; repeat constructor. }
  destruct (session_active w1); simpl.
  - pose proof (unmarked_write w1 (fs_frame st) (fs_write st)) as Hw.
    destruct (write w1 (fs_frame st) (fs_write st)) as [w2 e2].
    now apply unmarked_app.
  - now rewrite app_nil_r.
Qed.

Lemma unmarked_decode_loop (s : Stream) (steps : list FrameStep)
                           (cs : list Command) (fin : DecodeEnd) (w : Worker) :
  unmarked (snd (fst (decode_loop w s steps cs fin))).
Proof.
  revert w. induction steps as [|st steps IH]; intros w; simpl.
  - pose proof (apply_commands_events cs w) as Hc.
    destruct (apply_commands w cs) as [w1 e1].
    destruct fin; simpl; now apply unmarked_controller.
  - pose proof (apply_commands_events (fs_cmds st) w) as Hc.
    apply unmarked_controller in Hc.
    destruct (apply_commands w (fs_cmds st)) as [w1 e1]. simpl in Hc.
    destruct (stop_flag w1); auto.
    pose proof (unmarked_record_frame w1 s st) as Hr.
    destruct (record_frame w1 s st) as [w2 e2]. simpl in Hr.
    destruct (fs_show st) as [e|]; simpl.
    + now apply unmarked_app.
    + specialize (IH (set_last_qimage (Some (qimage_of (fs_frame st))) w2)).
      destruct (decode_loop _ s steps cs fin) as [[w3 e3] ex]. simpl in *.
      repeat apply unmarked_app; auto. constructor; auto.
Qed.

Lemma unmarked_flush_encoder (w : Worker) (o : FlushOutcome) :
  unmarked (snd (flush_encoder w o)).
Proof.
  unfold flush_encoder.
  destruct (recording w && is_some (output_stream w)); simpl;
    [|constructor].
  destruct (output_container w); simpl; repeat constructor.
  apply unmarked_mux.
Qed.

Lemma attempt_continue (url transport : string) (latency_ms : Z)
                       (w w' : Worker) (a : Attempt) (tr : Trace) :
  attempt url transport latency_ms w a = (w', tr, IterContinue) ->
  exists tr0 reason,
    tr = connecting url transport latency_ms
           ++ tr0 ++ [EvStatus reason; EvSleep 2%Q] /\
    unmarked tr0.
Proof.
  unfold attempt.
  pose proof (apply_commands_events (at_open_cmds a) w) as Hc.
  apply unmarked_controller in Hc.
  destruct (apply_commands w (at_open_cmds a)) as [w1 e1]. simpl in Hc.
  destruct (at_open a) as [e|src].
  - unfold on_exception. destruct (stop_flag w1); intros [= <- <-].
    exists e1, (retry_message e). split; auto.
  - destruct (first_video (src_streams src)) as [s|]; [|discriminate].
    pose proof (unmarked_decode_loop s (src_frames src) (src_end_cmds src)
                  (src_end src) w1) as Hd.
    destruct (decode_loop w1 s (src_frames src) (src_end_cmds src)
                (src_end src)) as [[w2 e2] ex]. simpl in Hd.
    assert (Hp : unmarked (e1 ++ EvStatus "Playing" :: e2)).
    { apply unmarked_app; auto. constructor; auto. }
    destruct ex as [|e].
    + pose proof (unmarked_flush_encoder w2 (at_flush a)) as Hf.
      destruct (flush_encoder w2 (at_flush a)) as [w3 e3]. simpl in Hf.
      destruct (stop_flag w3); intros [= <- <-].
      exists ((e1 ++ EvStatus "Playing" :: e2) ++ e3),
             "Stream ended, reconnecting in 2s…".
      split; [now norm_trace | now apply unmarked_app].
    + unfold on_exception. destruct (stop_flag w2); intros [= <- <-].
      exists (e1 ++ EvStatus "Playing" :: e2), (retry_message e).
      split; [now norm_trace | auto].
Qed.

Lemma apply_command_keeps_stop (w : Worker) (c : Command) :
  stop_flag w = true -> stop_flag (fst (apply_command w c)) = true.
Proof.
  intros H. destruct c; simpl; auto.
  - unfold start_recording. destruct (recording w); simpl; auto.
  - unfold stop_recording. destruct (recording w); simpl; auto.
    destruct (output_container w); simpl; auto.
Qed.

Lemma apply_commands_keeps_stop (cs : list Command) (w : Worker) :
  stop_flag w = true -> stop_flag (fst (apply_commands w cs)) = true.
Proof.
  revert w. induction cs as [|c cs IH]; intros w H; simpl; auto.
  pose proof (apply_command_keeps_stop w c H) as Hc.
  destruct (apply_command w c) as [w1 e1]. specialize (IH w1 Hc).
  now destruct (apply_commands w1 cs).
Qed.

Lemma apply_commands_set_stop (cs : list Command) (w : Worker) :
  In CmdSetStop cs -> stop_flag (fst (apply_commands w cs)) = true.
Proof.
  revert w. induction cs as [|c cs IH]; intros w; simpl; [tauto|].
  intros [->|Hin].
  - simpl. pose proof (apply_commands_keeps_stop cs (set_stop_flag true w)
                         eq_refl) as H.
    now destruct (apply_commands (set_stop_flag true w) cs).
  - destruct (apply_command w c) as [w1 e1]. specialize (IH w1 Hin).
    now destruct (apply_commands w1 cs).
Qed.

(** C4, as the code has it: a pass that goes on to reconnect ends with a
    status and one [time.sleep(2)], the only sleep of the pass.  The cancel
    signal is read next at the head of the loop: a [stop] that arrives
    during the sleep ends the run there, with the cleanup and [stopped] and
    without a further sleep or connection. *)
Theorem backoff_is_one_sleep (url transport : string) (latency_ms : Z)
    (w w' : Worker) (a : Attempt) (tr : Trace) :
  attempt url transport latency_ms w a = (w', tr, IterContinue) ->
  sleeps tr = [2%Q] /\
  (exists tr0 reason, tr = tr0 ++ [EvStatus reason; EvSleep 2%Q]) /\
  (forall nxt rest, In CmdSetStop (at_pre nxt) ->
     let r := run url transport latency_ms w' (nxt :: rest) in
     r = finish (fst (apply_commands w' (at_pre nxt)))
                (snd (apply_commands w' (at_pre nxt))) /\
     sleeps (trace_of r) = [] /\
     count is_connecting (trace_of r) = 0%nat /\
     count is_stopped (trace_of r) = 1%nat).
Proof.
  intros Ha. destruct (attempt_continue _ _ _ _ _ _ _ Ha)
    as (tr0 & reason & -> & Hq).
  split; [|split].
  - unfold connecting. norm_trace.
    rewrite ?sleeps_cons, ?sleeps_app, ?sleeps_cons. cbn [app].
    now rewrite (sleeps_unmarked tr0 Hq).
  - exists (connecting url transport latency_ms ++ tr0), reason.
    now rewrite <- app_assoc.
  - intros nxt rest Hin. cbv zeta. simpl run.
    pose proof (apply_commands_set_stop (at_pre nxt) w' Hin) as Hs.
    pose proof (apply_commands_events (at_pre nxt) w') as Hc.
    destruct (apply_commands w' (at_pre nxt)) as [w1 e1]. simpl in Hs, Hc.
    rewrite Hs. simpl fst; simpl snd. split; [reflexivity|].
    unfold finish, cleanup.
    pose proof (stop_recording_events w1) as Hr.
    destruct (stop_recording w1) as [w2 e2]. simpl in Hr. simpl trace_of.
    assert (Hu : unmarked (e1 ++ e2))
      by (apply unmarked_app; now apply unmarked_controller).
    rewrite app_assoc, sleeps_app, (count_app is_connecting (e1 ++ e2)),
            (count_app is_stopped (e1 ++ e2)).
    rewrite (sleeps_unmarked _ Hu).
    rewrite (count_unmarked is_connecting (e1 ++ e2)),
            (count_unmarked is_stopped (e1 ++ e2));
      auto; intros [] E; simpl in *; congruence.
Qed.

Lemma backoff_is_one_sleep_witness :
  let tr := [EvStatus "Connecting…";
             EvOpenSource "rtsp://cam/live" (mkOptions "tcp" 5000000 100000);
             EvStatus "FFmpeg/PyAV error: Connection timed out; retrying in 2s…";
             EvSleep 2%Q] in
  sleeps tr = [2%Q] /\
  (exists tr0 reason, tr = tr0 ++ [EvStatus reason; EvSleep 2%Q]) /\
  (forall nxt rest, In CmdSetStop (at_pre nxt) ->
     let r := run "rtsp://cam/live" "tcp" 100 init (nxt :: rest) in
     r = finish (fst (apply_commands init (at_pre nxt)))
                (snd (apply_commands init (at_pre nxt))) /\
     sleeps (trace_of r) = [] /\
     count is_connecting (trace_of r) = 0%nat /\
     count is_stopped (trace_of r) = 1%nat).
Proof.
  exact (backoff_is_one_sleep "rtsp://cam/live" "tcp" 100 init init
           unreachable _ eq_refl).
Defined.

(** The claim of C4 as the spec words it fails: the backoff of a camera
    that does not answer is a single sleep of two seconds, and a [stop] that
    arrives meanwhile is seen only when it is over. *)
Lemma backoff_not_subsecond :
  let r := run "rtsp://cam/live" "tcp" 100 init [unreachable; stop_requested] in
  sleeps (trace_of r) = [2%Q] /\
  ~ subsecond_sleeps (trace_of r) /\
  r = Finished (set_stop_flag true init)
        [EvStatus "Connecting…";
         EvOpenSource "rtsp://cam/live" (mkOptions "tcp" 5000000 100000);
         EvStatus "FFmpeg/PyAV error: Connection timed out; retrying in 2s…";
         EvSleep 2%Q; EvStopped].
Proof.
  cbv zeta. split; [reflexivity|split; [|reflexivity]].
  intros H. inversion H as [|d l Hd _]; subst.
  revert Hd. unfold Qlt. simpl. lia.
Qed.

(** ** Recording: timestamps *)

Lemma encoded_pts_app (a b : Trace) :
  encoded_pts (a ++ b) = encoded_pts a ++ encoded_pts b.
Proof. unfold encoded_pts. apply flat_map_app. Qed.

Lemma encoded_pts_mux (pkts : list Packet) : encoded_pts (map EvMux pkts) = [].
Proof. induction pkts; simpl; auto. Qed.

Lemma encoded_pts_controller (tr : Trace) :
  Forall (fun e => controller_event e = true) tr -> encoded_pts tr = [].
Proof.
  intros H. induction H as [|e tr He _ IH]; simpl; auto.
  destruct e; simpl in *; try discriminate; auto.
Qed.

Lemma session_active_fields (w : Worker) :
  session_active w = true ->
  recording w = true /\
  (exists c, output_container w = Some c) /\
  (exists o, output_stream w = Some o).
Proof.
  unfold session_active. destruct (recording w); simpl; [|discriminate].
  destruct (output_container w) as [c|]; simpl; [|discriminate].
  destruct (output_stream w) as [o|]; simpl; [|discriminate].
  eauto.
Qed.

(** Writing a frame keeps the session as it is, but for the counter and the
    packets in the container. *)
Lemma write_keeps_session (w : Worker) (f : Frame) (o : WriteOutcome) :
  session_active w = true ->
  let w' := fst (write w f o) in
  session_active w' = true /\
  stop_flag w' = stop_flag w /\
  recording_start_pts w' = recording_start_pts w.
Proof.
  intros Ha. destruct (session_active_fields w Ha) as (Hr & [c Hc] & [s Hs]).
  unfold session_active, write, mux_all.
  destruct o; simpl; rewrite ?Hc; simpl; rewrite ?Hr, ?Hc, ?Hs; auto.
Qed.

Lemma write_plain (w : Worker) (st : FrameStep) :
  plain st = true ->
  frame_count (fst (write w (fs_frame st) (fs_write st))) = frame_count w + 1
  /\ encoded_pts (snd (write w (fs_frame st) (fs_write st)))
     = [rebased_pts w (fs_frame st)].
Proof.
  unfold plain. destruct (fs_cmds st); [|discriminate].
  destruct (fs_show st); [discriminate|].
  unfold write, mux_all.
  destruct (fs_write st); try discriminate; intros _; simpl;
    destruct (output_container w); simpl;
    rewrite ?encoded_pts_app, ?encoded_pts_mux; auto.
Qed.

Lemma record_frame_active (w : Worker) (s : Stream) (st : FrameStep) :
  session_active w = true ->
  record_frame w s st = write w (fs_frame st) (fs_write st).
Proof.
  intros Ha. destruct (session_active_fields w Ha) as (Hr & [c Hc] & _).
  unfold record_frame. rewrite Hr, Hc. simpl. rewrite Ha.
  now destruct (write w (fs_frame st) (fs_write st)).
Qed.

(** The frame loop of an active session that nothing disturbs stamps the
    frames by [stamps], from the counter on. *)
Lemma decode_loop_stamps (s : Stream) (cs : list Command) (fin : DecodeEnd)
                         (steps : list FrameStep) (w : Worker) :
  session_active w = true -> stop_flag w = false ->
  Forall (fun st => plain st = true) steps ->
  encoded_pts (snd (fst (decode_loop w s steps cs fin)))
  = stamps (recording_start_pts w) (frame_count w) (map fs_frame steps).
Proof.
  revert w. induction steps as [|st steps IH]; intros w Ha Hgo Hall; simpl.
  - pose proof (apply_commands_events cs w) as Hc.
    destruct (apply_commands w cs) as [w1 e1].
    destruct fin; simpl; now apply encoded_pts_controller.
  - inversion Hall as [|? ? Hst Hrest]; subst.
    pose proof (write_plain w st Hst) as [Hn Hp].
    pose proof (write_keeps_session w (fs_frame st) (fs_write st) Ha)
      as (Ha' & Hgo' & Hstart).
    unfold plain in Hst.
    destruct (fs_cmds st); [|discriminate]. simpl. rewrite Hgo.
    rewrite (record_frame_active w s st Ha).
    destruct (write w (fs_frame st) (fs_write st)) as [w2 e2]. simpl in *.
    destruct (fs_show st); [discriminate|].
    specialize (IH (set_last_qimage (Some (qimage_of (fs_frame st))) w2)).
    simpl in IH. rewrite Hgo', Hstart, Hn in IH.
    specialize (IH Ha' Hgo Hrest).
    destruct (decode_loop _ s steps cs fin) as [[w3 e3] ex]. simpl in *.
    rewrite encoded_pts_app, Hp. simpl. now rewrite IH.
Qed.

Lemma stamps_present (p0 : Z) (ps : list Z) (frames : list Frame) (n : Z) :
  map f_pts frames = map Some ps ->
  stamps (Some p0) n frames = map (fun p => p - p0) ps.
Proof.
  revert ps n. induction frames as [|f frames IH]; intros [|p ps] n H;
    simpl in *; try discriminate; auto.
  injection H as Hf Hrest. rewrite Hf. f_equal. now apply IH.
Qed.

Lemma stamps_absent (start : option Z) (frames : list Frame) (k : nat) :
  Forall (fun f => f_pts f = None) frames ->
  stamps start (Z.of_nat k) frames
  = map Z.of_nat (seq k (List.length frames)).
Proof.
  intros H. revert k. induction H as [|f frames Hf _ IH]; intros k; simpl; auto.
  rewrite Hf. f_equal.
  replace (Z.of_nat k + 1) with (Z.of_nat (S k)) by lia. apply IH.
Qed.

Lemma sorted_rebased (p0 : Z) (ps : list Z) :
  Sorted Z.le ps -> Sorted Z.le (map (fun p => p - p0) ps).
Proof.
  intros H. induction H as [|p ps _ IH Hhd]; simpl; constructor; auto.
  destruct Hhd; simpl; constructor. lia.
Qed.

Lemma sorted_counter (n k : nat) : Sorted Z.le (map Z.of_nat (seq k n)).
Proof.
  revert k. induction n as [|n IH]; intros k; simpl; constructor; auto.
  destruct n; simpl; constructor. lia.
Qed.

(** The first frame of a requested session opens the output and is stamped
    against itself; the frames after it follow [decode_loop_stamps]. *)
Lemma decode_loop_first_frame (s : Stream) (cs : list Command)
    (fin : DecodeEnd) (st : FrameStep) (rest : list FrameStep)
    (w : Worker) (path : string) :
  recording w = true -> output_container w = None ->
  path_given w = Some path -> stop_flag w = false ->
  fs_mat st = MatOk ->
  Forall (fun st => plain st = true) (st :: rest) ->
  encoded_pts (snd (fst (decode_loop w s (st :: rest) cs fin)))
  = stamps (f_pts (fs_frame st)) 0 (map fs_frame (st :: rest)).
Proof.
  intros Hr Hc Hp Hgo Hmat Hall.
  inversion Hall as [|? ? Hst Hrest]; subst.
  set (w1 := fst (materialize w path s (fs_frame st) MatOk)).
  assert (Ha : session_active w1 = true)
    by (unfold w1, session_active; simpl; now rewrite Hr).
  pose proof (write_plain w1 st Hst) as [Hn Hpts].
  pose proof (write_keeps_session w1 (fs_frame st) (fs_write st) Ha)
    as (Ha' & Hgo' & Hstart).
  assert (Hrec : record_frame w s st = 
                 (fst (write w1 (fs_frame st) (fs_write st)),
                  EvOpenOutput path
                    :: snd (write w1 (fs_frame st) (fs_write st)))).
  { unfold record_frame. rewrite Hr, Hc, Hp, Hmat. simpl.
    fold w1. unfold w1 in Ha. simpl in Ha. rewrite Ha.
    now destruct (write _ (fs_frame st) (fs_write st)). }
  simpl decode_loop. unfold plain in Hst.
  destruct (fs_cmds st); [|discriminate]. simpl apply_commands. cbv iota.
  rewrite Hgo, Hrec.
  destruct (fs_show st); [discriminate|].
  destruct (write w1 (fs_frame st) (fs_write st)) as [w2 e2]. simpl in *.
  pose proof (decode_loop_stamps s cs fin rest
                (set_last_qimage (Some (qimage_of (fs_frame st))) w2)
                Ha') as IH.
  simpl in IH. rewrite Hgo', Hstart, Hn in IH.
  specialize (IH Hgo Hrest).
  destruct (decode_loop _ s rest cs fin) as [[w3 e3] ex]. simpl in *.
  rewrite encoded_pts_app, Hpts. simpl. rewrite IH.
  unfold rebased_pts, w1. simpl.
  destruct (f_pts (fs_frame st)); reflexivity.
Qed.

(** C2, as the code has it: in a session that opens on the first of a run
    of undisturbed frames, frame i is handed to the encoder with timestamp
    [pts i - pts 0] when the frames carry timestamps, and with i when they
    carry none.  The counter never decreases; the rebased timestamps follow
    the source, so they are non-decreasing when those of the source are. *)
Theorem recorded_timestamps (w : Worker) (path : string) (s : Stream)
    (st : FrameStep) (rest : list FrameStep) (cs : list Command)
    (fin : DecodeEnd) :
  recording w = true -> output_container w = None ->
  path_given w = Some path -> stop_flag w = false ->
  fs_mat st = MatOk ->
  Forall (fun st => plain st = true) (st :: rest) ->
  let frames := map fs_frame (st :: rest) in
  let out := encoded_pts (snd (fst (decode_loop w s (st :: rest) cs fin))) in
  (forall ps, map f_pts frames = map Some ps ->
     out = map (fun p => p - hd 0 ps) ps /\
     (Sorted Z.le ps -> Sorted Z.le out)) /\
  (Forall (fun f => f_pts f = None) frames ->
     out = map Z.of_nat (seq 0 (List.length frames)) /\
     Sorted Z.le out).
Proof.
  intros Hr Hc Hp Hgo Hmat Hall. cbv zeta.
  rewrite (decode_loop_first_frame s cs fin st rest w path Hr Hc Hp Hgo
             Hmat Hall).
  split.
  - intros ps Hps. destruct ps as [|p0 ps]; [discriminate|].
    assert (H0 : f_pts (fs_frame st) = Some p0)
      by (simpl in Hps; congruence).
    rewrite H0, (stamps_present p0 (p0 :: ps) _ 0 Hps). simpl hd.
    split; [reflexivity|apply sorted_rebased].
  - intros Hnone.
    change 0 with (Z.of_nat 0).
    rewrite (stamps_absent (f_pts (fs_frame st)) _ 0%nat Hnone).
    split; [reflexivity|apply sorted_counter].
Qed.

Lemma recorded_timestamps_witness :
  let steps := [step_of (shot 0 (Some 9000)) [];
                step_of (shot 1 (Some 9040)) [0%nat];
                step_of (shot 2 (Some 9080)) [1%nat; 2%nat]] in
  let frames := map fs_frame steps in
  let out :=
    encoded_pts (snd (fst (decode_loop requested camera steps []
                                       StreamEnds))) in
  (forall ps, map f_pts frames = map Some ps ->
     out = map (fun p => p - hd 0 ps) ps /\
     (Sorted Z.le ps -> Sorted Z.le out)) /\
  (Forall (fun f => f_pts f = None) frames ->
     out = map Z.of_nat (seq 0 (List.length frames)) /\
     Sorted Z.le out).
Proof.
  apply (recorded_timestamps requested "out.mkv" camera
           (step_of (shot 0 (Some 9000)) [])
           [step_of (shot 1 (Some 9040)) [0%nat];
            step_of (shot 2 (Some 9080)) [1%nat; 2%nat]]
           [] StreamEnds eq_refl eq_refl eq_refl eq_refl eq_refl).
  repeat constructor.
Defined.

(** The claim of C2 as the spec words it fails: the frames of a source
    whose timestamps step back are stored with timestamps that step back. *)
Lemma timestamps_follow_the_source :
  let steps := [step_of (shot 0 (Some 9000)) [0%nat];
                step_of (shot 1 (Some 6000)) [1%nat]] in
  let out :=
    encoded_pts (snd (fst (decode_loop requested camera steps []
                                       StreamEnds))) in
  map f_pts (map fs_frame steps) = [Some 9000; Some 6000] /\
  out = [9000 - 9000; 6000 - 9000] /\
  ~ Sorted Z.le out.
Proof.
  cbv zeta. split; [reflexivity|split; [reflexivity|]].
  change (~ Sorted Z.le [0; -3000]).
  intros H. inversion H as [|a l _ Hhd].
  inversion Hhd as [|b l' Hle]. lia.
Qed.

(** ** Recording and playback side by side *)

Lemma offered_app (a b : Trace) : offered (a ++ b) = offered a ++ offered b.
Proof. unfold offered. apply flat_map_app. Qed.

Lemma delivered_app (a b : Trace) :
  delivered (a ++ b) = delivered a ++ delivered b.
Proof. unfold delivered. apply flat_map_app. Qed.

Lemma controller_no_frames (tr : Trace) :
  Forall (fun e => controller_event e = true) tr ->
  offered tr = [] /\ delivered tr = [].
Proof.
  intros H. induction H as [|e tr He _ [IH1 IH2]]; simpl; auto.
  destruct e; simpl in *; try discriminate; auto.
Qed.

Lemma mux_no_frames (pkts : list Packet) :
  offered (map EvMux pkts) = [] /\ delivered (map EvMux pkts) = [].
Proof. induction pkts; simpl; auto. Qed.

Lemma write_offers (w : Worker) (f : Frame) (o : WriteOutcome) :
  offered (snd (write w f o)) = [f_id f] /\ delivered (snd (write w f o)) = [].
Proof.
  destruct (mux_no_frames
              match o with WOk p => p | WMuxRaises d _ => d | _ => [] end)
    as [Ho Hd].
  destruct o; simpl in *; rewrite ?offered_app, ?delivered_app, ?Ho, ?Hd; auto.
Qed.

Lemma apply_commands_keep_session (cs : list Command) (w : Worker) :
  keeps_recording cs = true -> session_active w = true ->
  session_active (fst (apply_commands w cs)) = true.
Proof.
  revert w. induction cs as [|c cs IH]; intros w Hcs Ha; simpl in *; auto.
  apply andb_prop in Hcs as [Hc Hcs].
  destruct (session_active_fields w Ha) as (Hr & _).
  assert (H1 : session_active (fst (apply_command w c)) = true).
  { destruct c; simpl; try discriminate; auto.
    unfold start_recording. now rewrite Hr. }
  destruct (apply_command w c) as [w1 e1]. specialize (IH w1 Hcs H1).
  now destruct (apply_commands w1 cs).
Qed.

(** C8: while a session is active and the controller does not stop it,
    the frames handed to the recording path are exactly the frames the loop
    took up, in decode order, and the frames published to the sink are the
    same frames in the same order: none is left out, none is moved.  The
    two lists differ by at most the last frame, offered but not published
    when its display conversion raised and ended the loop.  How the write of
    a frame ends (encode or mux raising) does not enter: with no display
    failure the two lists are equal. *)
Theorem recording_follows_playback (s : Stream) (cs : list Command)
    (fin : DecodeEnd) (steps : list FrameStep) (w : Worker) :
  session_active w = true ->
  Forall (fun st => keeps_recording (fs_cmds st) = true) steps ->
  let tr := snd (fst (decode_loop w s steps cs fin)) in
  (exists k, offered tr = firstn k (decode_order steps)) /\
  (exists last, offered tr = delivered tr ++ last /\
                (List.length last <= 1)%nat) /\
  (Forall (fun st => fs_show st = None) steps ->
   offered tr = delivered tr).
Proof.
  cbv zeta. revert w.
  induction steps as [|st steps IH]; intros w Ha Hall; simpl.
  - pose proof (apply_commands_events cs w) as Hc.
    destruct (apply_commands w cs) as [w1 e1].
    destruct (controller_no_frames _ Hc) as [Ho Hd].
    assert (E : snd (fst (match fin with
                          | StreamEnds => (w1, e1, LoopDone)
                          | DecodeRaises e => (w1, e1, LoopRaised e)
                          end)) = e1) by now destruct fin.
    rewrite E. simpl in Ho, Hd. rewrite Ho, Hd.
    repeat split; [now exists 0%nat | exists []; auto].
  - inversion Hall as [|? ? Hst Hrest]; subst.
    pose proof (apply_commands_events (fs_cmds st) w) as Hc.
    pose proof (apply_commands_keep_session (fs_cmds st) w Hst Ha) as Ha1.
    destruct (apply_commands w (fs_cmds st)) as [w1 e1]. simpl in Hc, Ha1.
    destruct (controller_no_frames _ Hc) as [Ho1 Hd1].
    destruct (stop_flag w1).
    { simpl. rewrite Ho1, Hd1.
      repeat split; [now exists 0%nat | exists []; auto]. }
    rewrite (record_frame_active w1 s st Ha1).
    destruct (write_offers w1 (fs_frame st) (fs_write st)) as [Ho2 Hd2].
    pose proof (write_keeps_session w1 (fs_frame st) (fs_write st) Ha1)
      as (Ha2 & _).
    destruct (write w1 (fs_frame st) (fs_write st)) as [w2 e2]. simpl in *.
    destruct (fs_show st) as [e|] eqn:Eshow; simpl.
    + rewrite offered_app, delivered_app, Ho1, Hd1, Ho2, Hd2. simpl.
      repeat split.
      * now exists 1%nat.
      * exists [f_id (fs_frame st)]. auto.
      * intros H. inversion H; congruence.
    + specialize (IH (set_last_qimage (Some (qimage_of (fs_frame st))) w2)
                     Ha2 Hrest).
      destruct (decode_loop _ s steps cs fin) as [[w3 e3] ex]. simpl in *.
      destruct IH as ([k Hk] & (last & Hlast & Hlen) & Hsame).
      rewrite !offered_app, !delivered_app, Ho1, Hd1, Ho2, Hd2. simpl.
      repeat split.
      * exists (S k). simpl. now rewrite Hk.
      * exists last. now rewrite Hlast.
      * intros H. inversion H; subst. now rewrite Hsame.
Qed.

Lemma recording_follows_playback_witness :
  let steps := [mkStep [] (shot 1 (Some 9040)) MatOk
                       (WEncodeRaises "Resource temporarily unavailable") None;
                mkStep [CmdStartRecording "other.mkv"] (shot 2 (Some 9080))
                       MatOk (WOk [0%nat; 1%nat]) None] in
  let tr := snd (fst (decode_loop in_session camera steps [] StreamEnds)) in
  (exists k, offered tr = firstn k (decode_order steps)) /\
  (exists last, offered tr = delivered tr ++ last /\
                (List.length last <= 1)%nat) /\
  (Forall (fun st => fs_show st = None) steps ->
   offered tr = delivered tr).
Proof.
  apply (recording_follows_playback camera [] StreamEnds _ in_session eq_refl).
  repeat constructor.
Defined.

(** ** Recording: closing and failing to open *)

(** The end of the frame loop does flush before the cleanup closes: a run
    stopped while it plays drains the encoder into the file first. *)
Lemma end_of_loop_flushes_before_close :
  trace_of (run "rtsp://cam/live" "tcp" 100 requested [stopped_while_playing])
  = [EvStatus "Connecting…";
     EvOpenSource "rtsp://cam/live" (mkOptions "tcp" 5000000 100000);
     EvStatus "Playing";
     EvOpenOutput "out.mkv"; EvOffer 0; EvEncode 0 0;
     EvFrameReady (qimage_of (shot 0 (Some 9000)));
     EvFlush; EvMux 0%nat;
     EvClose (mkContainer "out.mkv" [0%nat]); EvRecordingStatus false;
     EvStopped].
Proof. reflexivity. Qed.

(** Whatever makes the initialisation fail, the recording is called off:
    the flag is cleared, the reason and recording-status False are
    reported, nothing is written; and when it is the opening of the file
    that raised, no output resource is held. *)
Lemma init_failure_calls_off (w : Worker) (path : string) (s : Stream)
                             (st : FrameStep) :
  recording w = true -> output_container w = None ->
  path_given w = Some path -> fs_mat st <> MatOk ->
  let (w', tr) := record_frame w s st in
  recording w' = false /\
  (exists e, tr = [EvOpenOutput path;
                   EvStatus ("Recording init failed: " ++ e)%string;
                   EvRecordingStatus false]) /\
  (forall e, fs_mat st = MatOpenRaises e ->
             output_container w' = None /\
             output_stream w' = output_stream w).
Proof.
  intros Hr Hc Hp Hmat. unfold record_frame. rewrite Hr, Hc, Hp. simpl.
  destruct (fs_mat st) as [|e|e|a e]; [congruence| | |];
    unfold session_active; simpl; rewrite ?Hc; simpl;
    (split; [reflexivity|split; [now exists e|]]);
    intros e' [=]; auto.
Qed.

(** C1 (the code departs from it): [stop_recording] closes the container
    and never calls the encoder's flush.  Stopped after its first frame,
    which the encoder still holds, the session leaves a file with no packet
    for one encoded frame; so does a controller that stops the recording
    between two frames of a playing stream.  Only the end of the frame loop
    flushes, and only if the recording is still on. *)
Theorem stop_recording_does_not_flush :
  (forall w, count is_flush (snd (stop_recording w)) = 0%nat) /\
  encoded_pts (snd (record_frame requested camera
                      (step_of (shot 0 (Some 9000)) []))) = [0] /\
  stop_recording in_session
  = (set_output_stream None
       (set_output_container None (set_recording false in_session)),
     [EvClose (mkContainer "out.mkv" []); EvRecordingStatus false]) /\
  trace_of (run "rtsp://cam/live" "tcp" 100 requested
              [playing [step_of (shot 0 (Some 9000)) [];
                        then_stop_recording (step_of (shot 1 (Some 9040)) [])];
               stop_requested])
  = [EvStatus "Connecting…";
     EvOpenSource "rtsp://cam/live" (mkOptions "tcp" 5000000 100000);
     EvStatus "Playing";
     EvOpenOutput "out.mkv"; EvOffer 0; EvEncode 0 0;
     EvFrameReady (qimage_of (shot 0 (Some 9000)));
     EvClose (mkContainer "out.mkv" []); EvRecordingStatus false;
     EvFrameReady (qimage_of (shot 1 (Some 9040)));
     EvStatus "Stream ended, reconnecting in 2s…"; EvSleep 2%Q;
     EvStopped].
Proof.
  split; [|repeat split].
  intros w. unfold stop_recording.
  destruct (recording w); simpl; auto.
  destruct (output_container w); reflexivity.
Qed.

(** C3 (the code departs from it): when [add_stream] raises after the
    output file was opened, the recording is called off (flag cleared, the
    reason and recording-status False reported) and the frame is still
    displayed, but the opened container stays in the worker, without a
    stream and never closed: [stop_recording] no longer touches it, the
    cleanup of the run does not close it, and a recording requested later
    neither opens its own file nor writes a frame. *)
Theorem init_failure_leaves_output_open :
  let '(w', tr, _) := decode_loop requested camera [no_encoder] [] StreamEnds in
  tr = [EvOpenOutput "out.mkv";
        EvStatus "Recording init failed: Unknown encoder 'h264'";
        EvRecordingStatus false;
        EvFrameReady (qimage_of (shot 0 (Some 9000)))] /\
  recording w' = false /\
  output_container w' = Some (mkContainer "out.mkv" []) /\
  output_stream w' = None /\
  stop_recording w' = (w', []) /\
  closed (trace_of (run "rtsp://cam/live" "tcp" 100 requested
                        [playing [no_encoder]; stop_requested])) = [] /\
  (let w2 := fst (fst (start_recording w' "second.mkv")) in
   recording w2 = true /\
   record_frame w2 camera (step_of (shot 1 (Some 9040)) [1%nat]) = (w2, [])).
Proof.
  repeat split.
Qed.

(** ** A run emits [stopped] once, when it ends *)

Lemma unstopped_of_unmarked (tr : Trace) :
  unmarked tr -> Forall (fun e => is_stopped e = false) tr.
Proof.
  apply Forall_impl. intros [] E; simpl in *; congruence.
Qed.

Lemma count_stopped_none (tr : Trace) :
  Forall (fun e => is_stopped e = false) tr -> count is_stopped tr = 0%nat.
Proof.
  intros H. unfold count. induction H as [|e tr He _ IH]; simpl; auto.
  now rewrite He.
Qed.

Ltac split_trace :=
  repeat first [ assumption
               | apply Forall_nil
               | apply Forall_cons; [reflexivity|]
               | apply Forall_app; split ].

Lemma attempt_unstopped (url transport : string) (latency_ms : Z)
                        (w : Worker) (a : Attempt) :
  Forall (fun e => is_stopped e = false)
         (snd (fst (attempt url transport latency_ms w a))).
Proof.
  unfold attempt, connecting.
  pose proof (apply_commands_events (at_open_cmds a) w) as Hc.
  apply unmarked_controller, unstopped_of_unmarked in Hc.
  destruct (apply_commands w (at_open_cmds a)) as [w1 e1]. simpl in Hc.
  destruct (at_open a) as [e|src].
  - unfold on_exception. destruct (stop_flag w1); simpl; split_trace.
  - destruct (first_video (src_streams src)) as [s|]; simpl.
    2:{ split_trace. }
    pose proof (unmarked_decode_loop s (src_frames src) (src_end_cmds src)
                  (src_end src) w1) as Hd.
    apply unstopped_of_unmarked in Hd.
    destruct (decode_loop w1 s (src_frames src) (src_end_cmds src)
                (src_end src)) as [[w2 e2] ex]. simpl in Hd.
    destruct ex as [|e].
    + pose proof (unmarked_flush_encoder w2 (at_flush a)) as Hf.
      apply unstopped_of_unmarked in Hf.
      destruct (flush_encoder w2 (at_flush a)) as [w3 e3]. simpl in Hf.
      destruct (stop_flag w3); simpl; split_trace.
    + unfold on_exception. destruct (stop_flag w2); simpl; split_trace.
Qed.

Lemma finish_stops_once (w : Worker) (tr : Trace) :
  Forall (fun e => is_stopped e = false) tr ->
  exists w' tr', finish w tr = Finished w' tr' /\
                 count is_stopped tr' = 1%nat.
Proof.
  intros H. unfold finish, cleanup.
  pose proof (stop_recording_events w) as Hs.
  apply unmarked_controller, unstopped_of_unmarked in Hs.
  destruct (stop_recording w) as [w1 e1]. simpl in Hs.
  eexists _, _. split; [reflexivity|].
  rewrite !count_app, (count_stopped_none tr H), (count_stopped_none e1 Hs).
  reflexivity.
Qed.

Lemma run_stops_once (url transport : string) (latency_ms : Z)
                     (script : list Attempt) (w : Worker) :
  match run url transport latency_ms w script with
  | Finished _ tr => count is_stopped tr = 1%nat
  | Running _ tr => count is_stopped tr = 0%nat
  end.
Proof.
  revert w. induction script as [|a rest IH]; intros w; simpl.
  - destruct (stop_flag w); [|reflexivity].
    destruct (finish_stops_once w [] (Forall_nil _)) as (w' & tr' & -> & H).
    exact H.
  - pose proof (apply_commands_events (at_pre a) w) as Hc.
    apply unmarked_controller, unstopped_of_unmarked in Hc.
    destruct (apply_commands w (at_pre a)) as [w1 e1]. simpl in Hc.
    destruct (stop_flag w1).
    { destruct (finish_stops_once w1 e1 Hc) as (w' & tr' & -> & H).
      exact H. }
    pose proof (attempt_unstopped url transport latency_ms w1 a) as Ha.
    destruct (attempt url transport latency_ms w1 a) as [[w2 e2] x].
    simpl in Ha.
    assert (H12 : Forall (fun e => is_stopped e = false) (e1 ++ e2))
      by (apply Forall_app; auto).
    destruct x.
    + destruct (finish_stops_once w2 _ H12) as (w' & tr' & -> & H).
      exact H.
    + specialize (IH w2).
      destruct (run url transport latency_ms w2 rest); simpl;
        rewrite count_app, (count_stopped_none _ H12); exact IH.
Qed.

(** * Further properties of the worker *)

(** ** The cancel signal through the worker's steps *)

Lemma stop_flag_mux_all (pkts : list Packet) (w : Worker) :
  stop_flag (mux_all pkts w) = stop_flag w.
Proof. unfold mux_all. now destruct (output_container w). Qed.

Lemma stop_flag_record_frame (w : Worker) (s : Stream) (st : FrameStep) :
  stop_flag (fst (record_frame w s st)) = stop_flag w.
Proof.
  unfold record_frame.
  match goal with
  | |- context [let (_, _) := ?m in _] =>
      assert (Hm : stop_flag (fst m) = stop_flag w);
      [| destruct m as [w1 e1]; simpl in Hm ]
  end.
  { destruct (recording w && negb (is_some (output_container w)));
      [destruct (path_given w); [destruct (fs_mat st)|]|]; reflexivity. }
  destruct (session_active w1); simpl; auto.
  rewrite <- Hm. unfold write.
  destruct (fs_write st); simpl; rewrite ?stop_flag_mux_all; reflexivity.
Qed.

Lemma stop_flag_flush_encoder (w : Worker) (o : FlushOutcome) :
  stop_flag (fst (flush_encoder w o)) = stop_flag w.
Proof.
  unfold flush_encoder.
  destruct (recording w && is_some (output_stream w)); simpl; auto.
  destruct (output_container w) eqn:E; simpl; auto.
  apply stop_flag_mux_all.
Qed.

Lemma stop_flag_apply_command (w : Worker) (c : Command) :
  stop_flag (fst (apply_command w c))
  = stop_flag w || match c with CmdSetStop => true | _ => false end.
Proof.
  destruct c; simpl; rewrite ?orb_false_r, ?orb_true_r; auto.
  - unfold start_recording. now destruct (recording w).
  - unfold stop_recording. destruct (recording w); simpl; auto.
    now destruct (output_container w).
Qed.

Lemma stop_flag_apply_commands (cs : list Command) (w : Worker) :
  stop_flag (fst (apply_commands w cs)) = stop_flag w || sets_stop cs.
Proof.
  revert w. induction cs as [|c cs IH]; intros w; simpl.
  - now rewrite orb_false_r.
  - pose proof (stop_flag_apply_command w c) as Hc.
    destruct (apply_command w c) as [w1 e1]. specialize (IH w1).
    destruct (apply_commands w1 cs) as [w2 e2]. simpl in *.
    rewrite IH, Hc. now rewrite orb_assoc.
Qed.

(** ** Playback does not depend on the recording *)

Lemma delivered_mux (pkts : list Packet) : delivered (map EvMux pkts) = [].
Proof. induction pkts; simpl; auto. Qed.

Lemma delivered_record_frame (w : Worker) (s : Stream) (st : FrameStep) :
  delivered (snd (record_frame w s st)) = [].
Proof.
  unfold record_frame.
  match goal with
  | |- context [let (_, _) := ?m in _] =>
      assert (Hm : delivered (snd m) = []);
      [| destruct m as [w1 e1]; simpl in Hm ]
  end.
  { destruct (recording w && negb (is_some (output_container w)));
      [destruct (path_given w); [destruct (fs_mat st)|]|]; reflexivity. }
  destruct (session_active w1); simpl; rewrite ?app_nil_r; auto.
  destruct (write_offers w1 (fs_frame st) (fs_write st)) as [_ Hd].
  destruct (write w1 (fs_frame st) (fs_write st)) as [w2 e2]. simpl in *.
  now rewrite delivered_app, Hm, Hd.
Qed.

(** X1: whatever the recording does (requested or not, failing to open,
    failing to write, started or stopped by the controller between
    frames), the frame loop publishes the frames in decode order up to the
    first one that finds the cancel signal set or whose display conversion
    raises. *)
Theorem playback_ignores_recording (s : Stream) (cs : list Command)
    (fin : DecodeEnd) (steps : list FrameStep) (w : Worker) :
  delivered (snd (fst (decode_loop w s steps cs fin)))
  = shown (stop_flag w) steps.
Proof.
  revert w. induction steps as [|st steps IH]; intros w; simpl.
  - pose proof (apply_commands_events cs w) as Hc.
    destruct (apply_commands w cs) as [w1 e1].
    destruct (controller_no_frames _ Hc) as [_ Hd]. simpl in Hd.
    now destruct fin.
  - pose proof (apply_commands_events (fs_cmds st) w) as Hc.
    pose proof (stop_flag_apply_commands (fs_cmds st) w) as Hs.
    destruct (apply_commands w (fs_cmds st)) as [w1 e1]. simpl in Hc, Hs.
    destruct (controller_no_frames _ Hc) as [_ Hd1].
    rewrite <- Hs. destruct (stop_flag w1) eqn:Hgo; [exact Hd1|].
    pose proof (delivered_record_frame w1 s st) as Hd2.
    pose proof (stop_flag_record_frame w1 s st) as Hs2.
    destruct (record_frame w1 s st) as [w2 e2]. simpl in Hd2, Hs2.
    destruct (fs_show st) as [e|]; simpl.
    + now rewrite delivered_app, Hd1, Hd2.
    + specialize (IH (set_last_qimage (Some (qimage_of (fs_frame st))) w2)).
      simpl in IH. rewrite Hs2, Hgo in IH.
      destruct (decode_loop _ s steps cs fin) as [[w3 e3] ex]. simpl in *.
      rewrite !delivered_app, Hd1, Hd2. simpl. now rewrite IH.
Qed.

(** ** The recording flag and its notifications *)

Lemma transitions_app (cur : bool) (a b : Trace) :
  transitions cur (a ++ b)
  = match transitions cur a with
    | Some m => transitions m b
    | None => None
    end.
Proof.
  revert cur. induction a as [|e a IH]; intros cur; simpl; auto.
  destruct e; auto. destruct (Bool.eqb b0 cur); auto.
Qed.

Lemma transitions_mux (cur : bool) (pkts : list Packet) :
  transitions cur (map EvMux pkts) = Some cur.
Proof. induction pkts; simpl; auto. Qed.

Lemma follows_refl (w w' : Worker) :
  recording w' = recording w -> follows w [] w'.
Proof. unfold follows. simpl. congruence. Qed.

Lemma follows_trans (w w1 w2 : Worker) (a b : Trace) :
  follows w a w1 -> follows w1 b w2 -> follows w (a ++ b) w2.
Proof.
  unfold follows. intros H1 H2. now rewrite transitions_app, H1.
Qed.

Lemma follows_stop_recording (w : Worker) :
  follows w (snd (stop_recording w)) (fst (stop_recording w)).
Proof.
  unfold follows, stop_recording.
  destruct (recording w) eqn:E; simpl; rewrite ?E; auto.
  destruct (output_container w); simpl; rewrite ?E; auto.
Qed.

Lemma follows_apply_command (w : Worker) (c : Command) :
  follows w (snd (apply_command w c)) (fst (apply_command w c)).
Proof.
  destruct c as [path| |]; simpl.
  - unfold follows, start_recording.
    destruct (recording w) eqn:E; simpl; rewrite ?E; auto.
  - apply follows_stop_recording.
  - reflexivity.
Qed.

Lemma follows_apply_commands (cs : list Command) (w : Worker) :
  follows w (snd (apply_commands w cs)) (fst (apply_commands w cs)).
Proof.
  revert w. induction cs as [|c cs IH]; intros w; simpl.
  - reflexivity.
  - pose proof (follows_apply_command w c) as Hc.
    destruct (apply_command w c) as [w1 e1]. simpl in Hc.
    pose proof (IH w1) as Hcs.
    destruct (apply_commands w1 cs) as [w2 e2]. simpl in *.
    eapply follows_trans; eauto.
Qed.

Lemma follows_materialize (w : Worker) (path : string) (s : Stream)
                          (f : Frame) (o : MatOutcome) :
  recording w = true ->
  follows w (snd (materialize w path s f o)) (fst (materialize w path s f o)).
Proof. intros H. unfold follows. destruct o; simpl; now rewrite H. Qed.

Lemma follows_write (w : Worker) (f : Frame) (o : WriteOutcome) :
  follows w (snd (write w f o)) (fst (write w f o)).
Proof.
  unfold follows, write, mux_all.
  destruct o as [pkts|e|e|done e]; simpl;
    rewrite ?transitions_app, ?transitions_mux;
    destruct (output_container w); reflexivity.
Qed.

Lemma follows_record_frame (w : Worker) (s : Stream) (st : FrameStep) :
  follows w (snd (record_frame w s st)) (fst (record_frame w s st)).
Proof.
  unfold record_frame.
  match goal with
  | |- context [let (_, _) := ?m in _] =>
      assert (Hm : follows w (snd m) (fst m));
      [| destruct m as [w1 e1]; simpl in Hm ]
  end.
  { destruct (recording w) eqn:E; simpl; [|reflexivity].
    destruct (negb (is_some (output_container w))); [|reflexivity].
    destruct (path_given w); [now apply follows_materialize|reflexivity]. }
  destruct (session_active w1).
  - pose proof (follows_write w1 (fs_frame st) (fs_write st)) as Hw.
    destruct (write w1 (fs_frame st) (fs_write st)) as [w2 e2]. simpl in *.
    eapply follows_trans; eauto.
  - simpl. rewrite app_nil_r. exact Hm.
Qed.

Lemma follows_decode_loop (s : Stream) (steps : list FrameStep)
                          (cs : list Command) (fin : DecodeEnd) (w : Worker) :
  follows w (snd (fst (decode_loop w s steps cs fin)))
            (fst (fst (decode_loop w s steps cs fin))).
Proof.
  revert w. induction steps as [|st steps IH]; intros w; simpl.
  - pose proof (follows_apply_commands cs w) as Hc.
    destruct (apply_commands w cs) as [w1 e1]. destruct fin; exact Hc.
  - pose proof (follows_apply_commands (fs_cmds st) w) as Hc.
    destruct (apply_commands w (fs_cmds st)) as [w1 e1]. simpl in Hc.
    destruct (stop_flag w1); [exact Hc|].
    pose proof (follows_record_frame w1 s st) as Hr.
    destruct (record_frame w1 s st) as [w2 e2]. simpl in Hr.
    destruct (fs_show st) as [e|]; simpl.
    + eapply follows_trans; eauto.
    + specialize (IH (set_last_qimage (Some (qimage_of (fs_frame st))) w2)).
      destruct (decode_loop _ s steps cs fin) as [[w3 e3] ex]. simpl in *.
      eapply follows_trans; [exact Hc|].
      eapply follows_trans; [exact Hr|].
      unfold follows in *. simpl. exact IH.
Qed.

Lemma follows_flush_encoder (w : Worker) (o : FlushOutcome) :
  follows w (snd (flush_encoder w o)) (fst (flush_encoder w o)).
Proof.
  unfold follows, flush_encoder.
  destruct (recording w && is_some (output_stream w)); simpl; auto.
  destruct (output_container w) eqn:E; simpl; auto.
  unfold mux_all. rewrite E. simpl. apply transitions_mux.
Qed.

Ltac flips :=
  unfold follows in *; simpl in *;
  repeat first
    [ rewrite transitions_app; simpl
    | match goal with
      | H : transitions _ _ = Some _ |- _ => rewrite H; simpl
      end ].

Lemma follows_attempt (url transport : string) (latency_ms : Z)
                      (w : Worker) (a : Attempt) :
  follows w (snd (fst (attempt url transport latency_ms w a)))
            (fst (fst (attempt url transport latency_ms w a))).
Proof.
  unfold attempt.
  pose proof (follows_apply_commands (at_open_cmds a) w) as Hc.
  destruct (apply_commands w (at_open_cmds a)) as [w1 e1].
  destruct (at_open a) as [e|src].
  - unfold on_exception. destruct (stop_flag w1); flips; reflexivity.
  - destruct (first_video (src_streams src)) as [s|].
    2:{ flips. reflexivity. }
    pose proof (follows_decode_loop s (src_frames src) (src_end_cmds src)
                  (src_end src) w1) as Hd.
    destruct (decode_loop w1 s (src_frames src) (src_end_cmds src)
                (src_end src)) as [[w2 e2] ex].
    destruct ex as [|e].
    + pose proof (follows_flush_encoder w2 (at_flush a)) as Hf.
      destruct (flush_encoder w2 (at_flush a)) as [w3 e3].
      destruct (stop_flag w3); flips; reflexivity.
    + unfold on_exception. destruct (stop_flag w2); flips; reflexivity.
Qed.

Lemma follows_finish (w0 w : Worker) (tr : Trace) :
  follows w0 tr w ->
  follows w0 (trace_of (finish w tr)) (worker_of (finish w tr)).
Proof.
  intros H. unfold finish, cleanup.
  pose proof (follows_stop_recording w) as Hs.
  destruct (stop_recording w) as [w1 e1]. simpl in *.
  eapply follows_trans; [exact H|].
  unfold thread_exited. destruct (thread w1); flips; reflexivity.
Qed.

(** X2: along any run of the worker, controller calls included, every
    recording-status notification reports a real change of the recording
    flag (True only when it was off, False only when it was on), and the
    flag at the end is the last value notified. *)
Theorem notifications_follow_flag (url transport : string) (latency_ms : Z)
    (script : list Attempt) (w : Worker) :
  let r := run url transport latency_ms w script in
  transitions (recording w) (trace_of r) = Some (recording (worker_of r)).
Proof.
  cbv zeta. revert w. induction script as [|a rest IH]; intros w; simpl.
  - destruct (stop_flag w); [apply follows_finish|]; reflexivity.
  - pose proof (follows_apply_commands (at_pre a) w) as Hc.
    destruct (apply_commands w (at_pre a)) as [w1 e1]. simpl in Hc.
    destruct (stop_flag w1); [now apply follows_finish|].
    pose proof (follows_attempt url transport latency_ms w1 a) as Ha.
    destruct (attempt url transport latency_ms w1 a) as [[w2 e2] x].
    simpl in Ha.
    assert (H12 : follows w (e1 ++ e2) w2) by (eapply follows_trans; eauto).
    destruct x; [now apply follows_finish|].
    specialize (IH w2).
    destruct (run url transport latency_ms w2 rest); simpl in *;
      eapply follows_trans; eauto.
Qed.

(** ** Retrying and cancelling *)

Lemma decode_loop_stop_flag (s : Stream) (cs : list Command) (fin : DecodeEnd)
                            (steps : list FrameStep) (w : Worker) :
  stop_flag w = false ->
  forallb (fun st => negb (sets_stop (fs_cmds st))) steps = true ->
  sets_stop cs = false ->
  stop_flag (fst (fst (decode_loop w s steps cs fin))) = false.
Proof.
  revert w. induction steps as [|st steps IH]; intros w Hgo Hall Hcs; simpl.
  - pose proof (stop_flag_apply_commands cs w) as Hs.
    destruct (apply_commands w cs) as [w1 e1]. simpl in Hs.
    rewrite Hgo, Hcs in Hs. now destruct fin.
  - simpl in Hall. apply andb_prop in Hall as [Hst Hall].
    apply negb_true_iff in Hst.
    pose proof (stop_flag_apply_commands (fs_cmds st) w) as Hs.
    destruct (apply_commands w (fs_cmds st)) as [w1 e1]. simpl in Hs.
    rewrite Hgo, Hst in Hs. simpl in Hs. rewrite Hs.
    pose proof (stop_flag_record_frame w1 s st) as Hr.
    destruct (record_frame w1 s st) as [w2 e2]. simpl in Hr.
    destruct (fs_show st) as [e|]; simpl; [congruence|].
    specialize (IH (set_last_qimage (Some (qimage_of (fs_frame st))) w2)).
    simpl in IH. rewrite Hr, Hs in IH. specialize (IH eq_refl Hall Hcs).
    now destruct (decode_loop _ s steps cs fin) as [[w3 e3] ex].
Qed.

(** A pass that goes on: the shape of its trace, with the status it ends
    on. *)
Lemma attempt_continue_status (url transport : string) (latency_ms : Z)
                              (w w' : Worker) (a : Attempt) (tr : Trace) :
  attempt url transport latency_ms w a = (w', tr, IterContinue) ->
  stop_flag w' = false /\
  exists tr0 reason,
    tr = connecting url transport latency_ms
           ++ tr0 ++ [EvStatus reason; EvSleep 2%Q] /\
    unmarked tr0 /\
    is_connecting (EvStatus reason) = false.
Proof.
  unfold attempt.
  pose proof (apply_commands_events (at_open_cmds a) w) as Hc.
  apply unmarked_controller in Hc.
  destruct (apply_commands w (at_open_cmds a)) as [w1 e1]. simpl in Hc.
  destruct (at_open a) as [e|src].
  - unfold on_exception. destruct (stop_flag w1) eqn:Hgo; intros [= <- <-].
    split; [exact Hgo|]. exists e1, (retry_message e).
    split; [reflexivity|split; [exact Hc|now destruct e]].
  - destruct (first_video (src_streams src)) as [s|]; [|discriminate].
    pose proof (unmarked_decode_loop s (src_frames src) (src_end_cmds src)
                  (src_end src) w1) as Hd.
    destruct (decode_loop w1 s (src_frames src) (src_end_cmds src)
                (src_end src)) as [[w2 e2] ex]. simpl in Hd.
    assert (Hp : unmarked (e1 ++ EvStatus "Playing" :: e2)).
    { apply unmarked_app; auto. constructor; auto. }
    destruct ex as [|e].
    + pose proof (unmarked_flush_encoder w2 (at_flush a)) as Hf.
      destruct (flush_encoder w2 (at_flush a)) as [w3 e3]. simpl in Hf.
      destruct (stop_flag w3) eqn:Hgo; intros [= <- <-].
      split; [exact Hgo|].
      exists ((e1 ++ EvStatus "Playing" :: e2) ++ e3),
             "Stream ended, reconnecting in 2s…".
      split; [now norm_trace|split; [now apply unmarked_app|reflexivity]].
    + unfold on_exception. destruct (stop_flag w2) eqn:Hgo;
        intros [= <- <-].
      split; [exact Hgo|].
      exists (e1 ++ EvStatus "Playing" :: e2), (retry_message e).
      split; [now norm_trace|split; [exact Hp|now destruct e]].
Qed.

Lemma attempt_continue_counts (url transport : string) (latency_ms : Z)
                              (w w' : Worker) (a : Attempt) (tr : Trace) :
  attempt url transport latency_ms w a = (w', tr, IterContinue) ->
  stop_flag w' = false /\
  count is_connecting tr = 1%nat /\ sleeps tr = [2%Q] /\
  count is_stopped tr = 0%nat.
Proof.
  intros Ha.
  destruct (attempt_continue_status _ _ _ _ _ _ _ Ha)
    as (Hgo & tr0 & reason & -> & Hq & Hreason).
  split; [exact Hgo|]. unfold connecting. norm_trace.
  rewrite ?count_cons, ?count_app, ?count_cons, ?sleeps_cons, ?sleeps_app,
          ?sleeps_cons.
  rewrite (sleeps_unmarked tr0 Hq), Hreason,
          (count_unmarked is_connecting tr0), (count_unmarked is_stopped tr0);
    auto; intros [] E; simpl in *; congruence.
Qed.

Lemma attempt_retries (url transport : string) (latency_ms : Z)
                      (w : Worker) (a : Attempt) :
  stop_flag w = false -> retries a = true ->
  snd (attempt url transport latency_ms w a) = IterContinue.
Proof.
  unfold retries, attempt. intros Hgo Hr.
  apply andb_prop in Hr as [Hr Hopen]. apply andb_prop in Hr as [_ Hcmds].
  apply negb_true_iff in Hcmds.
  pose proof (stop_flag_apply_commands (at_open_cmds a) w) as Hs.
  destruct (apply_commands w (at_open_cmds a)) as [w1 e1]. simpl in Hs.
  rewrite Hgo, Hcmds in Hs. simpl in Hs.
  destruct (at_open a) as [e|src].
  - unfold on_exception. now rewrite Hs.
  - apply andb_prop in Hopen as [Hopen Hend].
    apply andb_prop in Hopen as [Hvideo Hframes].
    apply negb_true_iff in Hend.
    destruct (first_video (src_streams src)) as [s|]; [|discriminate].
    pose proof (decode_loop_stop_flag s (src_end_cmds src) (src_end src)
                  (src_frames src) w1 Hs Hframes Hend) as Hd.
    destruct (decode_loop w1 s (src_frames src) (src_end_cmds src)
                (src_end src)) as [[w2 e2] ex]. simpl in Hd.
    destruct ex as [|e].
    + pose proof (stop_flag_flush_encoder w2 (at_flush a)) as Hf.
      destruct (flush_encoder w2 (at_flush a)) as [w3 e3]. simpl in Hf.
      now rewrite Hf, Hd.
    + unfold on_exception. now rewrite Hd.
Qed.

(** X3: the worker never gives up by itself.  As long as nobody calls
    [stop] and every source that opens has a video stream, it is still in
    the loop after any number of passes, whatever failed in them (opening,
    decoding, displaying, stream end): it has announced Connecting once per
    pass, slept two seconds after each, and has not emitted [stopped]. *)
Theorem retries_without_bound (url transport : string) (latency_ms : Z)
    (script : list Attempt) (w : Worker) :
  stop_flag w = false ->
  Forall (fun a => retries a = true) script ->
  exists w' tr,
    run url transport latency_ms w script = Running w' tr /\
    stop_flag w' = false /\
    count is_connecting tr = List.length script /\
    sleeps tr = repeat 2%Q (List.length script) /\
    count is_stopped tr = 0%nat.
Proof.
  revert w. induction script as [|a rest IH]; intros w Hgo Hall; simpl.
  - rewrite Hgo. exists w, []. repeat split; auto.
  - inversion Hall as [|? ? Ha Hrest]; subst.
    assert (Hpre : sets_stop (at_pre a) = false).
    { unfold retries in Ha. apply andb_prop in Ha as [Ha _].
      apply andb_prop in Ha as [Ha _]. now apply negb_true_iff in Ha. }
    pose proof (stop_flag_apply_commands (at_pre a) w) as Hs.
    pose proof (apply_commands_events (at_pre a) w) as Hc.
    apply unmarked_controller in Hc.
    destruct (apply_commands w (at_pre a)) as [w1 e1]. simpl in Hs, Hc.
    rewrite Hgo, Hpre in Hs. simpl in Hs. rewrite Hs.
    pose proof (attempt_retries url transport latency_ms w1 a Hs Ha) as Hx.
    destruct (attempt url transport latency_ms w1 a) as [[w2 e2] x] eqn:E.
    simpl in Hx. subst x.
    destruct (attempt_continue_counts _ _ _ _ _ _ _ E)
      as (Hgo2 & Hconn & Hsleep & Hstop).
    destruct (IH w2 Hgo2 Hrest) as (w' & tr & -> & Hgo' & Hc' & Hs' & Hst').
    exists w', ((e1 ++ e2) ++ tr). simpl.
    rewrite <- !app_assoc, !count_app, !sleeps_app.
    rewrite Hconn, Hsleep, Hstop, Hc', Hs', Hst', (sleeps_unmarked e1 Hc),
            (count_unmarked is_connecting e1), (count_unmarked is_stopped e1);
      auto; intros [] E'; simpl in *; congruence.
Qed.

Lemma retries_without_bound_witness :
  exists w' tr,
    run "rtsp://cam/live" "udp" 100 init
        [unreachable; playing [step_of (shot 0 None) []]; unreachable]
    = Running w' tr /\
    stop_flag w' = false /\
    count is_connecting tr = 3%nat /\
    sleeps tr = [2%Q; 2%Q; 2%Q] /\
    count is_stopped tr = 0%nat.
Proof.
  apply (retries_without_bound "rtsp://cam/live" "udp" 100
           [unreachable; playing [step_of (shot 0 None) []]; unreachable]
           init eq_refl).
  repeat constructor.
Defined.







(** ** The end of a run *)

Lemma run_finished_ends_with_stopped (url transport : string)
    (latency_ms : Z) (script : list Attempt) (w w' : Worker) (tr : Trace) :
  run url transport latency_ms w script = Finished w' tr ->
  exists tr0, tr = tr0 ++ [EvStopped].
Proof.
  revert w tr. induction script as [|a rest IH]; intros w tr; simpl.
  - destruct (stop_flag w); [|discriminate]. unfold finish, cleanup.
    destruct (stop_recording w) as [w1 e1]. intros [= <- <-].
    now exists e1.
  - destruct (apply_commands w (at_pre a)) as [w1 e1].
    destruct (stop_flag w1).
    { unfold finish, cleanup. destruct (stop_recording w1) as [w2 e2].
      intros [= <- <-]. exists (e1 ++ e2). now rewrite app_assoc. }
    destruct (attempt url transport latency_ms w1 a) as [[w2 e2] x].
    destruct x.
    + unfold finish, cleanup. destruct (stop_recording w2) as [w3 e3].
      intros [= <- <-]. exists ((e1 ++ e2) ++ e3). now rewrite app_assoc.
    + destruct (run url transport latency_ms w2 rest) as [w3 t3|w3 t3] eqn:R;
        simpl; intros [= <- <-].
      destruct (IH _ _ R) as [tr0 ->].
      exists ((e1 ++ e2) ++ tr0). now rewrite app_assoc.
Qed.

Lemma finish_thread_exited (w0 w' : Worker) (t tr : Trace) :
  finish w0 t = Finished w' tr -> thread_running w' = false.
Proof.
  unfold finish, cleanup, thread_exited.
  destruct (stop_recording w0) as [w1 e1].
  destruct (thread w1) eqn:T; intros [= <- <-];
    unfold thread_running; simpl; now rewrite ?T.
Qed.

Lemma run_finished_thread_exited (url transport : string) (latency_ms : Z)
    (script : list Attempt) (w w' : Worker) (tr : Trace) :
  run url transport latency_ms w script = Finished w' tr ->
  thread_running w' = false.
Proof.
  revert w tr. induction script as [|a rest IH]; intros w tr; simpl.
  - destruct (stop_flag w); [|discriminate]. apply finish_thread_exited.
  - destruct (apply_commands w (at_pre a)) as [w1 e1].
    destruct (stop_flag w1); [apply finish_thread_exited|].
    destruct (attempt url transport latency_ms w1 a) as [[w2 e2] x].
    destruct x; [apply finish_thread_exited|].
    destruct (run url transport latency_ms w2 rest) as [w3 t3|w3 t3] eqn:R;
      simpl; intros [= <- <-].
    eapply IH; eauto.
Qed.

(** X5: a run emits [stopped] exactly once, as the last thing it does, and
    then its thread object reports not alive; a worker that is still in the
    loop has not emitted it. *)
Theorem stopped_is_last_and_once (url transport : string) (latency_ms : Z)
    (script : list Attempt) (w : Worker) :
  match run url transport latency_ms w script with
  | Finished w' tr =>
      (exists tr0, tr = tr0 ++ [EvStopped] /\ count is_stopped tr0 = 0%nat) /\
      thread_running w' = false
  | Running _ tr => count is_stopped tr = 0%nat
  end.
Proof.
  pose proof (run_stops_once url transport latency_ms script w) as Hn.
  destruct (run url transport latency_ms w script) as [w' tr|w' tr] eqn:R;
    [|exact Hn].
  split.
  - destruct (run_finished_ends_with_stopped _ _ _ _ _ _ _ R) as [tr0 ->].
    exists tr0. split; [reflexivity|].
    rewrite count_app in Hn. simpl in Hn. unfold count at 2 in Hn.
    simpl in Hn. lia.
  - eapply run_finished_thread_exited; eauto.
Qed.

(** ** Invariants of the worker's state

    A property of the worker that the elementary steps keep is kept by the
    frame loop, by a pass and by the whole run.  [ok] restricts the frames
    for which the recording block is known to keep it. *)
Section Preserved.

Variable P : Worker -> Prop.
Variable ok : FrameStep -> bool.

Hypothesis P_command :
  forall w c, P w -> P (fst (apply_command w c)).
Hypothesis P_record :
  forall w s st, ok st = true -> P w -> P (fst (record_frame w s st)).
Hypothesis P_image :
  forall w q, P w -> P (set_last_qimage q w).
Hypothesis P_flush :
  forall w o, P w -> P (fst (flush_encoder w o)).
Hypothesis P_thread :
  forall w t, P w -> P (set_thread t w).

Lemma preserved_commands (cs : list Command) (w : Worker) :
  P w -> P (fst (apply_commands w cs)).
Proof.
  revert w. induction cs as [|c cs IH]; intros w H; simpl; auto.
  pose proof (P_command w c H) as Hc.
  destruct (apply_command w c) as [w1 e1]. specialize (IH w1 Hc).
  now destruct (apply_commands w1 cs).
Qed.

Lemma preserved_decode_loop (s : Stream) (cs : list Command)
    (fin : DecodeEnd) (steps : list FrameStep) (w : Worker) :
  forallb ok steps = true -> P w ->
  P (fst (fst (decode_loop w s steps cs fin))).
Proof.
  revert w. induction steps as [|st steps IH]; intros w Hall H; simpl.
  - pose proof (preserved_commands cs w H) as Hc.
    destruct (apply_commands w cs) as [w1 e1]. now destruct fin.
  - simpl in Hall. apply andb_prop in Hall as [Hst Hall].
    pose proof (preserved_commands (fs_cmds st) w H) as Hc.
    destruct (apply_commands w (fs_cmds st)) as [w1 e1]. simpl in Hc.
    destruct (stop_flag w1); auto.
    pose proof (P_record w1 s st Hst Hc) as Hr.
    destruct (record_frame w1 s st) as [w2 e2]. simpl in Hr.
    destruct (fs_show st) as [e|]; simpl; auto.
    specialize (IH (set_last_qimage (Some (qimage_of (fs_frame st))) w2)
                   Hall (P_image _ _ Hr)).
    now destruct (decode_loop _ s steps cs fin) as [[w3 e3] ex].
Qed.

Lemma preserved_attempt (url transport : string) (latency_ms : Z)
                        (w : Worker) (a : Attempt) :
  frames_all ok a = true -> P w ->
  P (fst (fst (attempt url transport latency_ms w a))).
Proof.
  unfold frames_all, attempt. intros Hall H.
  pose proof (preserved_commands (at_open_cmds a) w H) as Hc.
  destruct (apply_commands w (at_open_cmds a)) as [w1 e1]. simpl in Hc.
  destruct (at_open a) as [e|src].
  - unfold on_exception. now destruct (stop_flag w1).
  - destruct (first_video (src_streams src)) as [s|]; auto.
    pose proof (preserved_decode_loop s (src_end_cmds src) (src_end src)
                  (src_frames src) w1 Hall Hc) as Hd.
    destruct (decode_loop w1 s (src_frames src) (src_end_cmds src)
                (src_end src)) as [[w2 e2] ex]. simpl in Hd.
    destruct ex as [|e].
    + pose proof (P_flush w2 (at_flush a) Hd) as Hf.
      destruct (flush_encoder w2 (at_flush a)) as [w3 e3].
      now destruct (stop_flag w3).
    + unfold on_exception. now destruct (stop_flag w2).
Qed.

Lemma preserved_finish (w : Worker) (tr : Trace) :
  P w -> P (worker_of (finish w tr)).
Proof.
  intros H. unfold finish, cleanup.
  pose proof (P_command w CmdStopRecording H) as Hs. simpl in Hs.
  destruct (stop_recording w) as [w1 e1]. simpl in *.
  unfold thread_exited. destruct (thread w1); auto.
Qed.

Lemma preserved_run (url transport : string) (latency_ms : Z)
                    (script : list Attempt) (w : Worker) :
  Forall (fun a => frames_all ok a = true) script -> P w ->
  P (worker_of (run url transport latency_ms w script)).
Proof.
  revert w. induction script as [|a rest IH]; intros w Hall H; simpl.
  - destruct (stop_flag w); [now apply preserved_finish|exact H].
  - inversion Hall as [|? ? Ha Hrest]; subst.
    pose proof (preserved_commands (at_pre a) w H) as Hc.
    destruct (apply_commands w (at_pre a)) as [w1 e1]. simpl in Hc.
    destruct (stop_flag w1); [now apply preserved_finish|].
    pose proof (preserved_attempt url transport latency_ms w1 a Ha Hc)
      as Hatt.
    destruct (attempt url transport latency_ms w1 a) as [[w2 e2] x].
    simpl in Hatt.
    destruct x; [now apply preserved_finish|].
    specialize (IH w2 Hrest Hatt).
    now destruct (run url transport latency_ms w2 rest).
Qed.

End Preserved.

Lemma sound_command (w : Worker) (c : Command) :
  sound w -> sound (fst (apply_command w c)).
Proof.
  unfold sound. intros [H1 H2]. destruct c; simpl; auto.
  - unfold start_recording. destruct (recording w); simpl; auto.
  - unfold stop_recording. destruct (recording w); simpl; auto.
    destruct (output_container w); simpl; auto.
Qed.

Lemma sound_write (w : Worker) (f : Frame) (o : WriteOutcome) :
  sound w -> sound (fst (write w f o)).
Proof.
  unfold sound, write, mux_all. intros [H1 H2].
  destruct o; simpl; destruct (output_container w) eqn:E; simpl;
    rewrite ?E; (split; [try (intros; discriminate); auto | lia]).
Qed.

Lemma sound_record (w : Worker) (s : Stream) (st : FrameStep) :
  sound w -> sound (fst (record_frame w s st)).
Proof.
  intros H. unfold record_frame.
  match goal with
  | |- context [let (_, _) := ?m in _] =>
      assert (Hm : sound (fst m)); [| destruct m as [w1 e1]; simpl in Hm ]
  end.
  { destruct (recording w && negb (is_some (output_container w))); auto.
    destruct (path_given w); auto.
    destruct H as [H1 H2]. unfold sound.
    destruct (fs_mat st); simpl; split; auto; try discriminate; lia. }
  destruct (session_active w1); simpl; auto.
  pose proof (sound_write w1 (fs_frame st) (fs_write st) Hm) as Hw.
  now destruct (write w1 (fs_frame st) (fs_write st)).
Qed.

Lemma sound_flush (w : Worker) (o : FlushOutcome) :
  sound w -> sound (fst (flush_encoder w o)).
Proof.
  unfold sound, flush_encoder. intros [H1 H2].
  destruct (recording w && is_some (output_stream w)); simpl; auto.
  destruct (output_container w) eqn:E; simpl; auto.
  unfold mux_all. rewrite E. simpl. split; [discriminate|exact H2].
Qed.

(** X6: in every state the worker reaches from a sound one (the fresh
    worker is), through any run with any controller calls and any failures,
    an encoder stream is held only together with its container (so the
    write and the flush never mux into a missing container), and the frame
    counter is not negative. *)
Theorem stream_never_without_container (url transport : string)
    (latency_ms : Z) (script : list Attempt) (w : Worker) :
  sound w ->
  let w' := worker_of (run url transport latency_ms w script) in
  (output_container w' = None -> output_stream w' = None) /\
  0 <= frame_count w'.
Proof.
  intros H.
  apply (preserved_run sound (fun _ => true)); auto.
  - apply sound_command.
  - intros ? ? ? _. apply sound_record.
  - apply sound_flush.
  - induction script as [|a rest IH]; constructor; auto.
    unfold frames_all. destruct (at_open a) as [e|src]; auto.
    induction (src_frames src); simpl; auto.
Qed.

Lemma stream_never_without_container_witness :
  let w' := worker_of (run "rtsp://cam/live" "tcp" 100 requested
                           [playing [no_encoder]; stop_requested]) in
  (output_container w' = None -> output_stream w' = None) /\
  0 <= frame_count w'.
Proof.
  apply (stream_never_without_container "rtsp://cam/live" "tcp" 100
           [playing [no_encoder]; stop_requested] requested).
  split; [reflexivity|]. simpl. lia.
Defined.

Lemma tidy_command (w : Worker) (c : Command) :
  tidy w -> tidy (fst (apply_command w c)).
Proof.
  unfold tidy. intros [H1 H2]. destruct c; simpl; auto.
  - unfold start_recording. destruct (recording w) eqn:E; simpl;
      (split; [intros R; simpl in R; congruence|auto]).
  - unfold stop_recording. destruct (recording w) eqn:E; simpl; auto.
    destruct (output_container w) eqn:C; simpl; auto.
Qed.

Lemma tidy_write (w : Worker) (f : Frame) (o : WriteOutcome) :
  tidy w -> tidy (fst (write w f o)).
Proof.
  unfold tidy, write, mux_all. intros [H1 H2].
  destruct o; simpl; destruct (output_container w) eqn:E; simpl;
    rewrite ?E;
    (split;
     [ intros R; try reflexivity; specialize (H1 R); congruence
     | intros C; try discriminate; auto ]).
Qed.

Lemma tidy_record (w : Worker) (s : Stream) (st : FrameStep) :
  opens_or_not (fs_mat st) = true ->
  tidy w -> tidy (fst (record_frame w s st)).
Proof.
  intros Hok H. unfold record_frame.
  match goal with
  | |- context [let (_, _) := ?m in _] =>
      assert (Hm : tidy (fst m)); [| destruct m as [w1 e1]; simpl in Hm ]
  end.
  { destruct (recording w) eqn:R; simpl; auto.
    destruct (output_container w) eqn:C; simpl; auto.
    destruct (path_given w); auto.
    destruct H as [H1 H2]. unfold tidy.
    destruct (fs_mat st); simpl in *; try discriminate; rewrite ?C;
      (split; [intros R'; try reflexivity; congruence
              |intros C'; try discriminate; auto]). }
  destruct (session_active w1); simpl; auto.
  pose proof (tidy_write w1 (fs_frame st) (fs_write st) Hm) as Hw.
  now destruct (write w1 (fs_frame st) (fs_write st)).
Qed.

Lemma tidy_flush (w : Worker) (o : FlushOutcome) :
  tidy w -> tidy (fst (flush_encoder w o)).
Proof.
  unfold tidy, flush_encoder. intros [H1 H2].
  destruct (recording w && is_some (output_stream w)); simpl; auto.
  destruct (output_container w) eqn:E; simpl; auto.
  unfold mux_all. rewrite E. simpl.
  split; [|discriminate]. intros R. specialize (H1 R). discriminate.
Qed.

Lemma tidy_run (url transport : string) (latency_ms : Z)
               (script : list Attempt) (w : Worker) :
  tidy w ->
  Forall (fun a => opens_or_not_throughout a = true) script ->
  tidy (worker_of (run url transport latency_ms w script)).
Proof.
  intros H Hall.
  apply (preserved_run tidy (fun st => opens_or_not (fs_mat st))); auto.
  - apply tidy_command.
  - intros ? ? ?. apply tidy_record.
  - apply tidy_flush.
Qed.

Lemma finish_not_recording (w0 w' : Worker) (t tr : Trace) :
  finish w0 t = Finished w' tr -> recording w' = false.
Proof.
  unfold finish, cleanup, thread_exited, stop_recording.
  destruct (recording w0) eqn:R; simpl.
  - destruct (output_container w0); simpl;
      destruct (thread w0); intros [= <- <-]; reflexivity.
  - destruct (thread w0); intros [= <- <-]; simpl; exact R.
Qed.

Lemma run_finished_not_recording (url transport : string) (latency_ms : Z)
    (script : list Attempt) (w w' : Worker) (tr : Trace) :
  run url transport latency_ms w script = Finished w' tr ->
  recording w' = false.
Proof.
  revert w tr. induction script as [|a rest IH]; intros w tr; simpl.
  - destruct (stop_flag w); [|discriminate]. apply finish_not_recording.
  - destruct (apply_commands w (at_pre a)) as [w1 e1].
    destruct (stop_flag w1); [apply finish_not_recording|].
    destruct (attempt url transport latency_ms w1 a) as [[w2 e2] x].
    destruct x; [apply finish_not_recording|].
    destruct (run url transport latency_ms w2 rest) as [w3 t3|w3 t3] eqn:R;
      simpl; intros [= <- <-].
    eapply IH; eauto.
Qed.

(** X7: a run that started tidy (no output held while not recording, as
    the fresh worker is) and in which no initialisation failed after the
    file was opened ends with the recording flag off and holding neither
    container nor stream: whatever was opened has been closed by
    [stop_recording], from the controller or in the cleanup.  While the
    worker is still in the loop it stays tidy. *)
Theorem ended_run_holds_no_output (url transport : string) (latency_ms : Z)
    (script : list Attempt) (w : Worker) :
  tidy w ->
  Forall (fun a => opens_or_not_throughout a = true) script ->
  match run url transport latency_ms w script with
  | Finished w' _ =>
      recording w' = false /\
      output_container w' = None /\ output_stream w' = None
  | Running w' _ => tidy w'
  end.
Proof.
  intros H Hall.
  pose proof (tidy_run url transport latency_ms script w H Hall) as T.
  destruct (run url transport latency_ms w script) as [w' tr|w' tr] eqn:R;
    [|exact T].
  pose proof (run_finished_not_recording _ _ _ _ _ _ _ R) as Hoff.
  destruct T as [T1 T2]. simpl in T1, T2. auto.
Qed.

Lemma ended_run_holds_no_output_witness :
  match run "rtsp://cam/live" "tcp" 100 requested [stopped_while_playing] with
  | Finished w' _ =>
      recording w' = false /\
      output_container w' = None /\ output_stream w' = None
  | Running w' _ => tidy w'
  end.
Proof.
  apply (ended_run_holds_no_output "rtsp://cam/live" "tcp" 100
           [stopped_while_playing] requested).
  - split; [reflexivity|intros _; reflexivity].
  - repeat constructor.
Defined.

(** ** What ends up in the file *)









(** * Properties of the application window *)

(** ** Dictionaries *)

Lemma lookup_store_same (k : string) (v : Value) (d : Dict) :
  lookup k (store k v d) = Some v.
Proof.
  induction d as [|[k' v'] d IH]; simpl.
  - now rewrite String.eqb_refl.
  - destruct (String.eqb k k') eqn:E; simpl; rewrite E; auto.
Qed.

Lemma lookup_store_other (k k' : string) (v : Value) (d : Dict) :
  k <> k' -> lookup k (store k' v d) = lookup k d.
Proof.
  intros Hne. induction d as [|[k0 v0] d IH]; simpl.
  - destruct (String.eqb_spec k k'); [contradiction|reflexivity].
  - destruct (String.eqb_spec k' k0) as [->|Hk]; simpl.
    + destruct (String.eqb_spec k k0); [contradiction|reflexivity].
    + destruct (String.eqb k k0); auto.
Qed.

Lemma get_store_other (k k' : string) (v dflt : Value) (d : Dict) :
  k <> k' -> get k dflt (store k' v d) = get k dflt d.
Proof. intros H. unfold get. now rewrite lookup_store_other. Qed.

Lemma get_store_same (k : string) (v dflt : Value) (d : Dict) :
  get k dflt (store k v d) = v.
Proof. unfold get. now rewrite lookup_store_same. Qed.

(** ** The URL *)

(** X9: the URL built without the password (the one shown in the preview
    field) does not depend on the password stored in the state; and when no
    user name is set, no URL does, with or without the password. *)
Theorem preview_hides_password (st : Dict) (p : Value) :
  build_url_from_state (store "pass" p st) false
  = build_url_from_state st false /\
  (truthy (get "user" (VStr "") st) = false ->
   forall b b', build_url_from_state (store "pass" p st) b
                = build_url_from_state st b').
Proof.
  unfold build_url_from_state.
  rewrite (get_store_other "user"), (get_store_other "ip"),
          (get_store_other "port"), (get_store_other "slug"),
          (get_store_other "channel"), (get_store_other "subtype")
    by discriminate.
  split.
  - rewrite !andb_false_r. reflexivity.
  - intros Hu b b'. rewrite Hu. reflexivity.
Qed.

Lemma prefix_rtsp (rest : string) : prefix "rtsp://" ("rtsp://" ++ rest) = true.
Proof. simpl. now destruct rest. Qed.

(** X10: the URL is empty exactly when the state has no IP (absent, empty,
    or otherwise false); then nothing else in the state is looked at, so
    nothing can raise.  Every other URL starts with rtsp://, and the only
    exception is the AttributeError of a slug that is not a string, which
    needs an IP to be reached. *)
Theorem url_empty_iff_no_ip (st : Dict) (b : bool) :
  (build_url_from_state st b = Ok ""
   <-> truthy (get "ip" (VStr "") st) = false) /\
  (forall u, build_url_from_state st b = Ok u ->
             u = "" \/ prefix "rtsp://" u = true) /\
  (forall e, build_url_from_state st b = Raise e ->
             truthy (get "ip" (VStr "") st) = true /\
             e = AttributeError "startswith" /\
             forall s, get "slug" (VStr "") st <> VStr s).
Proof.
  unfold build_url_from_state.
  destruct (truthy (get "ip" (VStr "") st)) eqn:Hip; simpl.
  - destruct (get "slug" (VStr "") st) as [s|n|x| |p t] eqn:Hs;
      (split; [split; intros H; discriminate|]);
      (split; [intros u [= <-]; right; apply prefix_rtsp
              |intros e H; try discriminate]).
    all: injection H as <-; repeat split; intros s' H'; discriminate.
  - split; [split; auto|]. split.
    + intros u [= <-]. now left.
    + intros e H. discriminate.
Qed.

Lemma prefix_slash (s : string) : prefix "/" ("/" ++ s) = true.
Proof. simpl. now destruct s. Qed.

(** X11: a slug is used with a leading slash whether or not it was
    entered with one: the state with slug [s] and the state with slug
    [/s] give the same URL, whenever [s] does not itself start with a
    slash (the empty slug included). *)
Theorem slug_gets_leading_slash (st : Dict) (s : string) (b : bool) :
  prefix "/" s = false ->
  build_url_from_state (store "slug" (VStr ("/" ++ s)) st) b
  = build_url_from_state (store "slug" (VStr s) st) b.
Proof.
  intros Hs. unfold build_url_from_state.
  rewrite !(get_store_other "user"), !(get_store_other "ip"),
          !(get_store_other "port"), !(get_store_other "pass"),
          !(get_store_other "channel"), !(get_store_other "subtype")
    by discriminate.
  rewrite !get_store_same, prefix_slash, Hs. reflexivity.
Qed.

Lemma slug_gets_leading_slash_witness :
  build_url_from_state
    (store "slug" (VStr "/cam/realmonitor") [("ip", VStr "10.0.0.7")]) true
  = build_url_from_state
      (store "slug" (VStr "cam/realmonitor") [("ip", VStr "10.0.0.7")]) true.
Proof.
  exact (slug_gets_leading_slash [("ip", VStr "10.0.0.7")]
           "cam/realmonitor" true eq_refl).
Defined.

(** ** Lists indexed the Python way *)












(** ** Stopping every stream *)


(** Unfolding the plumbing of a slot, leaving what it computes with. *)
Ltac gui :=
  cbv beta iota zeta
      delta [bind ret raise panel worker key set_panel set_worker store_panel
             call_worker ask_worker start_worker emit emit_all active
             the_form lift panel_states workers active_index form].













(** ** Starting a stream *)







(** ** Recording and snapshots from the window *)


Lemma no_worker_events (i : Z) (tr : Trace) :
  filter is_gui_worker (map (GuiWorker i) tr) = map (GuiWorker i) tr.
Proof. induction tr; simpl; congruence. Qed.



(** ** The panel's recording entry follows the worker *)









(** ** Snapshots *)



(** ** Starting every stream *)











(** ** Stopping the active stream *)


